(** * execctx: cancellable [os/exec] commands and the bounded stderr saver

    A shallow embedding of [exec.go].  The first part covers
    [prefixSuffixSaver] (the head-and-tail byte sink), the second part the
    [Cmd] wrapper: [Start], [Wait], [Run], [CombinedOutput], [Output] and the
    goroutine that races [ctx.Done()] against [waitDone]. *)

From Stdlib Require Import ZArith List Lia Bool Ascii String DecimalString.
From Stdlib.Strings Require Import Byte.
Import ListNotations.
Open Scope Z_scope.

(** ** Outcomes of Go calls

    A call either returns, panics (slice bounds, closing a closed channel), or
    is cut off because the iteration budget given to a loop ran out. *)

Inductive outcome (A : Type) : Type :=
| Ok (a : A)
| Panic
| OutOfFuel.
Arguments Ok {A} a.
Arguments Panic {A}.
Arguments OutOfFuel {A}.

Definition bind {A B : Type} (m : outcome A) (k : A -> outcome B) : outcome B :=
  match m with
  | Ok a => k a
  | Panic => Panic
  | OutOfFuel => OutOfFuel
  end.

Notation "x <- m ;; k" := (bind m (fun x => k))
  (at level 61, m at next level, right associativity).
Notation "' pat <- m ;; k" := (bind m (fun x => match x with pat => k end))
  (at level 61, pat pattern, m at next level, right associativity).

(** ** Go integers and byte slices *)

(** Values of type [int] (lengths, [N], [suffixOff]) are integers: a length
    is bounded by the address space, and the code only compares them and adds
    or subtracts a length and [N].  The counter [skipped] grows with the whole
    stream, so its [int64] arithmetic is written with its wrap-around (two's
    complement). *)
Definition int64 (z : Z) : Z := (z + 2 ^ 63) mod 2 ^ 64 - 2 ^ 63.

(** The content of a parameter or result of type [[]byte]. *)
Definition bytes := list byte.

Definition lenb (p : bytes) : Z := Z.of_nat (List.length p).

(** [p[:k]] and [p[k:]] on contents, for [0 <= k <= len(p)]. *)
Definition take (k : Z) (p : bytes) : bytes := firstn (Z.to_nat k) p.
Definition drop (k : Z) (p : bytes) : bytes := skipn (Z.to_nat k) p.

(** A struct field of type [[]byte]: [None] is the nil slice.  The fields of
    [prefixSuffixSaver] start nil and are assigned by [append] only. *)
Definition slice := option bytes.

Definition elems (s : slice) : bytes :=
  match s with
  | None => []
  | Some l => l
  end.

Definition len (s : slice) : Z := lenb (elems s).

(** [append(dst, xs...)]: appending nothing returns [dst] itself, so a nil
    slice stays nil. *)
Definition append (dst : slice) (xs : bytes) : slice :=
  match xs with
  | [] => dst
  | _ :: _ => Some (elems dst ++ xs)
  end.

Definition minInt (a b : Z) : Z := if a <? b then a else b.

(** [strconv.FormatInt(z, 10)]. *)
Definition FormatInt (z : Z) : bytes :=
  list_byte_of_string (NilZero.string_of_int (Z.to_int z)).

(** ** prefixSuffixSaver *)

Record prefixSuffixSaver : Type := mkSaver {
  N : Z;            (* max size of prefix or suffix *)
  prefix : slice;
  suffix : slice;   (* ring buffer once len(suffix) == N *)
  suffixOff : Z;    (* offset to write into suffix *)
  skipped : Z       (* int64 *)
}.

(** [&prefixSuffixSaver{N: n}] *)
Definition newSaver (n : Z) : prefixSuffixSaver :=
  {| N := n; prefix := None; suffix := None; suffixOff := 0; skipped := 0 |}.

(** [fill]: appends up to [len(p)] bytes of [p] to [dst] so that [dst] does
    not grow larger than [n]; returns the new [dst] and the rest of [p]. *)
Definition fill (n : Z) (dst : slice) (p : bytes) : slice * bytes :=
  let remain := n - len dst in
  if 0 <? remain then
    let add := minInt (lenb p) remain in
    (append dst (take add p), drop add p)
  else (dst, p).

(** [copy(dst[off:], p)] for [0 <= off <= len(dst)]: the number of bytes
    copied and the new content of [dst]. *)
Definition copy_at (dst : bytes) (off : Z) (p : bytes) : Z * bytes :=
  let n := Z.min (lenb dst - off) (lenb p) in
  (n, take off dst ++ take n p ++ drop (off + n) dst).

(** The loop [for len(p) > 0 { ... }] of [Write], at most [fuel] iterations. *)
Fixpoint overwrite (fuel : nat) (w : prefixSuffixSaver) (p : bytes)
  : outcome prefixSuffixSaver :=
  if 0 <? lenb p then
    match fuel with
    | O => OutOfFuel
    | S fuel' =>
        if (suffixOff w <? 0) || (len (suffix w) <? suffixOff w) then Panic
        else
          let '(n, suf) := copy_at (elems (suffix w)) (suffixOff w) p in
          let off := suffixOff w + n in
          overwrite fuel'
            {| N := N w;
               prefix := prefix w;
               suffix := Some suf;
               suffixOff := if off =? N w then 0 else off;
               skipped := int64 (skipped w + n) |}
            (drop n p)
    end
  else Ok w.

(** [Write]: the saver after the call and the returned count (the returned
    error is always nil). *)
Definition Write (fuel : nat) (w : prefixSuffixSaver) (p : bytes)
  : outcome (prefixSuffixSaver * Z) :=
  let lenp := lenb p in
  let '(pre, p1) := fill (N w) (prefix w) p in
  let overage := lenb p1 - N w in
  '(p2, skp) <-
    (if 0 <? overage then
       if lenb p1 <? overage then Panic
       else Ok (drop overage p1, int64 (skipped w + overage))
     else Ok (p1, skipped w)) ;;
  let '(suf, p3) := fill (N w) (suffix w) p2 in
  w' <- overwrite fuel
          {| N := N w; prefix := pre; suffix := suf;
             suffixOff := suffixOff w; skipped := skp |} p3 ;;
  Ok (w', lenp).

Definition newline : string := String "010"%char EmptyString.

Definition omitting_head : bytes :=
  list_byte_of_string (newline ++ "... omitting ")%string.
Definition omitting_tail : bytes :=
  list_byte_of_string (" bytes ..." ++ newline)%string.

(** [Bytes] *)
Definition Bytes (w : prefixSuffixSaver) : outcome bytes :=
  match suffix w with
  | None => Ok (elems (prefix w))
  | Some suf =>
      if skipped w =? 0 then Ok (elems (prefix w) ++ suf)
      else if (suffixOff w <? 0) || (lenb suf <? suffixOff w) then Panic
      else Ok (elems (prefix w) ++ omitting_head ++ FormatInt (skipped w)
               ++ omitting_tail
               ++ drop (suffixOff w) suf ++ take (suffixOff w) suf)
  end.

(** A sequence of [Write] calls on one saver. *)
Fixpoint writes (fuel : nat) (w : prefixSuffixSaver) (ps : list bytes)
  : outcome prefixSuffixSaver :=
  match ps with
  | [] => Ok w
  | p :: ps' => '(w', _) <- Write fuel w p ;; writes fuel w' ps'
  end.

(** The suffix ring read from the cursor, wrapping around. *)
Definition ring (w : prefixSuffixSaver) : bytes :=
  drop (suffixOff w) (elems (suffix w)) ++ take (suffixOff w) (elems (suffix w)).

(** [x[len(x)-n:]]: the last [n] bytes of [x] (all of [x] when it is shorter). *)
Definition lastn (n : Z) (x : bytes) : bytes := drop (lenb x - n) x.

(** The suffix is a full ring with its cursor inside. *)
Definition full_ring (w : prefixSuffixSaver) : Prop :=
  len (suffix w) = N w /\ 0 <= suffixOff w < N w.

(** Iterations the loop takes on a full ring: none for an empty [p], one when
    [p] fits before the end of the ring, two when it wraps. *)
Definition need (w : prefixSuffixSaver) (p : bytes) : nat :=
  if lenb p <=? 0 then 0%nat
  else if lenb p <=? N w - suffixOff w then 1%nat
  else 2%nat.

(** The invariant of a saver fed the stream [st]: the prefix is the head of
    [st], the ring read from its cursor is the tail, [mid] is what was dropped
    in between and [skipped] counts it. *)
Record Inv (st : bytes) (w : prefixSuffixSaver) : Prop := mkInv {
  inv_N : 0 < N w;
  inv_prefix : len (prefix w) <= N w;
  inv_suffix : len (suffix w) <= N w;
  inv_off : 0 <= suffixOff w < N w;
  inv_pnil : prefix w <> Some [];
  inv_snil : suffix w <> Some [];
  inv_stream :
    exists mid,
      st = elems (prefix w) ++ mid ++ ring w /\
      skipped w = int64 (lenb mid) /\
      (len (prefix w) < N w -> len (suffix w) = 0) /\
      (len (suffix w) < N w -> mid = []) /\
      (mid = [] -> suffixOff w = 0)
}.

(** * The command wrapper [Cmd] *)

(** The two output streams of a child process. *)
Inductive Stream : Type := ToStdout | ToStderr.

(** [ctx.Err()] of a context whose [Done] channel is closed. *)
Inductive ctxErr : Type := Canceled | DeadlineExceeded.

Inductive error : Type :=
| errors_New (msg : string)                (* errors.New(msg) *)
| ContextErr (e : ctxErr)                  (* what ctx.Err() returns *)
| ExitError (status : Z) (Stderr : bytes)  (* *exec.ExitError and its Stderr field *)
| OtherError (msg : string).               (* any other error of os/exec *)

(** The state of a non-nil [context.Context]: [None] while [Done()] is open
    (then [Err()] is nil), [Some e] once it is closed (then [Err()] is [e]). *)
Definition Context : Type := option ctxErr.

(** Writers live in a store and are attached by address, so that one
    [bytes.Buffer] can be attached to both streams. *)
Inductive object : Type :=
| Buffer (content : bytes)           (* bytes.Buffer *)
| Saver (w : prefixSuffixSaver)      (* prefixSuffixSaver *)
| Foreign.                           (* a writer of the caller *)

Definition ptr : Type := nat.
Definition heap : Type := list object.

Definition alloc (h : heap) (o : object) : heap * ptr :=
  (h ++ [o], List.length h).

Fixpoint store (h : heap) (p : ptr) (o : object) : heap :=
  match h, p with
  | [], _ => []
  | _ :: h', O => o :: h'
  | x :: h', S p' => x :: store h' p' o
  end.

(** [b.Bytes()] of the [bytes.Buffer] at [p]. *)
Definition buffer_Bytes (h : heap) (p : ptr) : bytes :=
  match nth_error h p with
  | Some (Buffer c) => c
  | _ => []
  end.

(** [os/exec] and the child process are not part of this package: [Proc] is
    the state of the underlying [exec.Cmd] and its process, [Func] the type of
    cancel functions.  [exec_Wait] gives what [cmd.Wait()] returns once the
    process has exited, with the chunks the process wrote, which os/exec has
    copied into the attached writers by then. *)
Class OsExec : Type := {
  Proc : Type;
  Func : Type;
  exec_Start : option ptr -> option ptr -> Proc -> Proc * option error;
  exec_Wait : Proc -> Proc * list (Stream * bytes) * option error;
  process_Kill : Proc -> Proc;
  call : Func -> Proc -> Proc
}.

(** What has been done to the process. *)
Inductive event {os : OsExec} : Type :=
| CmdStart             (* cmd.Start() was called *)
| Kill                 (* cmd.Process.Kill() by the watcher *)
| Cancel (f : Func).   (* the cancel function was called by the watcher *)

Section CmdModel.
Context {os : OsExec}.

(** The fields of [exec.Cmd] this package reads and writes. *)
Record exec_Cmd : Type := mkExecCmd {
  Stdout : option ptr;
  Stderr : option ptr;
  proc : Proc
}.

(** A [Cmd] with what it points to: the context, the wrapped command, the
    [waitDone] channel, the store of writers, the watcher goroutines blocked
    in their [select], and the log of what was done to the process. *)
Record World : Type := mkWorld {
  ctx : Context;
  cancel : option Func;      (* nil: kill *)
  cmd : exec_Cmd;
  waitDone : bool;           (* closed? *)
  mem : heap;
  watchers : nat;
  trace : list event
}.

(** [FromCmd(ctx, cmd, cancel)] *)
Definition FromCmd (c : Context) (e : exec_Cmd) (f : option Func) (h : heap)
  : World :=
  {| ctx := c; cancel := f; cmd := e; waitDone := false; mem := h;
     watchers := 0; trace := [] |}.

Definition set_proc (w : World) (p : Proc) : World :=
  {| ctx := ctx w; cancel := cancel w;
     cmd := {| Stdout := Stdout (cmd w); Stderr := Stderr (cmd w); proc := p |};
     waitDone := waitDone w; mem := mem w; watchers := watchers w;
     trace := trace w |}.

Definition set_Stdout (w : World) (q : option ptr) : World :=
  {| ctx := ctx w; cancel := cancel w;
     cmd := {| Stdout := q; Stderr := Stderr (cmd w); proc := proc (cmd w) |};
     waitDone := waitDone w; mem := mem w; watchers := watchers w;
     trace := trace w |}.

Definition set_Stderr (w : World) (q : option ptr) : World :=
  {| ctx := ctx w; cancel := cancel w;
     cmd := {| Stdout := Stdout (cmd w); Stderr := q; proc := proc (cmd w) |};
     waitDone := waitDone w; mem := mem w; watchers := watchers w;
     trace := trace w |}.

Definition set_mem (w : World) (h : heap) : World :=
  {| ctx := ctx w; cancel := cancel w; cmd := cmd w; waitDone := waitDone w;
     mem := h; watchers := watchers w; trace := trace w |}.

Definition set_ctx (w : World) (c : Context) : World :=
  {| ctx := c; cancel := cancel w; cmd := cmd w; waitDone := waitDone w;
     mem := mem w; watchers := watchers w; trace := trace w |}.

Definition close_waitDone (w : World) : World :=
  {| ctx := ctx w; cancel := cancel w; cmd := cmd w; waitDone := true;
     mem := mem w; watchers := watchers w; trace := trace w |}.

Definition set_watchers (w : World) (n : nat) : World :=
  {| ctx := ctx w; cancel := cancel w; cmd := cmd w; waitDone := waitDone w;
     mem := mem w; watchers := n; trace := trace w |}.

Definition log (w : World) (e : event) : World :=
  {| ctx := ctx w; cancel := cancel w; cmd := cmd w; waitDone := waitDone w;
     mem := mem w; watchers := watchers w; trace := trace w ++ [e] |}.

(** [Start]: the world after the call and the returned error.  On success one
    more watcher goroutine is blocked in its [select]. *)
Definition Start (w : World) : World * option error :=
  match ctx w with
  | Some e => (w, Some (ContextErr e))
  | None =>
      let '(p, err) :=
        exec_Start (Stdout (cmd w)) (Stderr (cmd w)) (proc (cmd w)) in
      let w1 := log (set_proc w p) CmdStart in
      match err with
      | Some e => (w1, Some e)
      | None => (set_watchers w1 (S (watchers w1)), None)
      end
  end.

(** One [Write] of the process's output on the writer at [q]. *)
Definition writer_Write (fuel : nat) (h : heap) (q : ptr) (b : bytes)
  : outcome heap :=
  match nth_error h q with
  | Some (Buffer c) => Ok (store h q (Buffer (c ++ b)))
  | Some (Saver sv) => '(sv', _) <- Write fuel sv b ;; Ok (store h q (Saver sv'))
  | Some Foreign => Ok h
  | None => Ok h
  end.

(** os/exec copies every chunk the process wrote to the writer attached to its
    stream; output on a stream with no writer is discarded. *)
Fixpoint deliver (fuel : nat) (e : exec_Cmd) (h : heap)
    (out : list (Stream * bytes)) : outcome heap :=
  match out with
  | [] => Ok h
  | (st, b) :: out' =>
      match (match st with ToStdout => Stdout e | ToStderr => Stderr e end) with
      | Some q => h' <- writer_Write fuel h q b ;; deliver fuel e h' out'
      | None => deliver fuel e h out'
      end
  end.

(** [Wait]: [cmd.Wait()], then [close(c.waitDone)], which panics when the
    channel is closed already. *)
Definition Wait (fuel : nat) (w : World) : outcome (World * option error) :=
  let '(p, out, err) := exec_Wait (proc (cmd w)) in
  h <- deliver fuel (cmd w) (mem w) out ;;
  let w1 := set_mem (set_proc w p) h in
  if waitDone w1 then Panic else Ok (close_waitDone w1, err).

(** [Run] *)
Definition Run (fuel : nat) (w : World) : outcome (World * option error) :=
  let '(w1, err) := Start w in
  match err with
  | Some _ => Ok (w1, None)
  | None => Wait fuel w1
  end.

(** [CombinedOutput] *)
Definition CombinedOutput (fuel : nat) (w : World)
  : outcome (World * (bytes * option error)) :=
  match Stdout (cmd w) with
  | Some _ => Ok (w, ([], Some (errors_New "exec: Stdout already set")))
  | None =>
      match Stderr (cmd w) with
      | Some _ => Ok (w, ([], Some (errors_New "exec: Stderr already set")))
      | None =>
          let '(h, b) := alloc (mem w) (Buffer []) in
          let w1 := set_Stderr (set_Stdout (set_mem w h) (Some b)) (Some b) in
          '(w2, err) <- Run fuel w1 ;;
          Ok (w2, (buffer_Bytes (mem w2) b, err))
      end
  end.

(** [Output(ctx)]; the argument is a [context.Context] interface value, nil
    or not. *)
Definition Output (fuel : nat) (ctx_arg : option Context) (w : World)
  : outcome (World * (bytes * option error)) :=
  match Stdout (cmd w) with
  | Some _ => Ok (w, ([], Some (errors_New "exec: Stdout already set")))
  | None =>
      let '(h, stdout) := alloc (mem w) (Buffer []) in
      let w1 := set_Stdout (set_mem w h) (Some stdout) in
      let captureErr :=
        match Stderr (cmd w1) with None => true | Some _ => false end in
      let w2 :=
        if captureErr then
          let '(h', sv) := alloc (mem w1) (Saver (newSaver (Z.shiftl 32 10))) in
          set_Stderr (set_mem w1 h') (Some sv)
        else w1 in
      '(w3, err) <- Run fuel w2 ;;
      err' <-
        (match err with
         | Some (ExitError status old) =>
             if captureErr then
               match Stderr (cmd w3) with
               | Some q =>
                   match nth_error (mem w3) q with
                   | Some (Saver sv) =>
                       b <- Bytes sv ;; Ok (Some (ExitError status b))
                   | _ => Panic
                   end
               | None => Panic
               end
             else Ok err
         | _ => Ok err
         end) ;;
      Ok (w3, (buffer_Bytes (mem w3) stdout, err'))
  end.

(** The two cases of the watcher's [select]. *)
Inductive branch : Type := CaseCtxDone | CaseWaitDone.

(** A receive from a channel can proceed once the channel is closed. *)
Definition can_proceed (w : World) (b : branch) : bool :=
  match b with
  | CaseCtxDone => match ctx w with Some _ => true | None => false end
  | CaseWaitDone => waitDone w
  end.

(** The goroutine of [Start] when its [select] takes case [b]; [None] when no
    watcher is blocked or the case cannot proceed.  With both channels
    closed either case may be taken. *)
Definition watcher (b : branch) (w : World) : option World :=
  if (0 <? watchers w)%nat && can_proceed w b then
    let w1 := set_watchers w (pred (watchers w)) in
    match b with
    | CaseCtxDone =>
        match cancel w with
        | None => Some (log (set_proc w1 (process_Kill (proc (cmd w1)))) Kill)
        | Some f => Some (log (set_proc w1 (call f (proc (cmd w1)))) (Cancel f))
        end
    | CaseWaitDone => Some w1
    end
  else None.

(** What can happen after [Start]: the owner of the context cancels it (or its
    deadline passes), the caller's [Wait] returns, the watcher's [select]
    takes a case. *)
Inductive label : Type :=
| EnvCancel (e : ctxErr)
| CallWait
| Select (b : branch).

Definition step (fuel : nat) (l : label) (w : World) : option World :=
  match l with
  | EnvCancel e =>
      match ctx w with
      | None => Some (set_ctx w (Some e))
      | Some _ => None
      end
  | CallWait =>
      match Wait fuel w with
      | Ok (w', _) => Some w'
      | _ => None
      end
  | Select b => watcher b w
  end.

Fixpoint exec (fuel : nat) (ls : list label) (w : World) : option World :=
  match ls with
  | [] => Some w
  | l :: ls' =>
      match step fuel l w with
      | Some w' => exec fuel ls' w'
      | None => None
      end
  end.

(** Invocations of the termination policy in a log. *)
Fixpoint policy_calls (tr : list event) : nat :=
  match tr with
  | [] => 0
  | CmdStart :: tr' => policy_calls tr'
  | Kill :: tr' => S (policy_calls tr')
  | Cancel _ :: tr' => S (policy_calls tr')
  end.

(** [Wait] returns somewhere in [ls] before any [select] has taken the
    cancellation case. *)
Fixpoint wait_before_cancel_seen (ls : list label) : bool :=
  match ls with
  | [] => false
  | CallWait :: _ => true
  | Select CaseCtxDone :: _ => false
  | _ :: ls' => wait_before_cancel_seen ls'
  end.

Definition selects (b : branch) (l : label) : bool :=
  match l, b with
  | Select CaseCtxDone, CaseCtxDone => true
  | Select CaseWaitDone, CaseWaitDone => true
  | _, _ => false
  end.

(** The errors of [CombinedOutput] and [Output] for a stream that is set. *)
Definition already_set (e : error) : Prop :=
  e = errors_New "exec: Stdout already set" \/
  e = errors_New "exec: Stderr already set".

End CmdModel.

(** A process that starts, writes nothing and exits with status 0; cancel
    functions are numbered. *)
Definition quiet_process : OsExec :=
  {| Proc := unit;
     Func := nat;
     exec_Start := fun _ _ p => (p, None);
     exec_Wait := fun p => (p, [], None);
     process_Kill := fun p => p;
     call := fun _ p => p |}.

(** Its command with no writer attached. *)
Definition quiet_cmd : @exec_Cmd quiet_process :=
  @mkExecCmd quiet_process None None tt.

(** [FromCmd] on it, with an empty store. *)
Definition quiet_world (c : Context) (f : option nat) : @World quiet_process :=
  @FromCmd quiet_process c quiet_cmd f [].

(** The same with a writer of the caller attached to [Stdout]. *)
Definition bound_world : @World quiet_process :=
  @FromCmd quiet_process None (@mkExecCmd quiet_process (Some 0%nat) None tt)
    None [Foreign].

(** A process that writes to both streams and exits with status 1. *)
Definition chatty_process : OsExec :=
  {| Proc := unit;
     Func := nat;
     exec_Start := fun _ _ p => (p, None);
     exec_Wait := fun p =>
       (p,
        [(ToStdout, list_byte_of_string "out");
         (ToStderr, list_byte_of_string "err");
         (ToStdout, list_byte_of_string "more")],
        Some (ExitError 1 []));
     process_Kill := fun p => p;
     call := fun _ p => p |}.

Definition chatty_world : @World chatty_process :=
  @FromCmd chatty_process None (@mkExecCmd chatty_process None None tt) None [].

(** The same process with a writer of the caller attached to [Stderr]. *)
Definition chatty_world_with_Stderr : @World chatty_process :=
  @FromCmd chatty_process None
    (@mkExecCmd chatty_process None (Some 0%nat) tt) None [Foreign].

(** The chunks of a process's output that went to stream [s], in order. *)
Fixpoint chunks_of (s : Stream) (out : list (Stream * bytes)) : list bytes :=
  match out with
  | [] => []
  | (ToStdout, b) :: out' =>
      match s with
      | ToStdout => b :: chunks_of s out'
      | ToStderr => chunks_of s out'
      end
  | (ToStderr, b) :: out' =>
      match s with
      | ToStdout => chunks_of s out'
      | ToStderr => b :: chunks_of s out'
      end
  end.

(** An error with [b] stored in its [Stderr] field when it is an
    [*exec.ExitError], as is. *)
Definition with_Stderr (err : option error) (b : bytes) : option error :=
  match err with
  | Some (ExitError status _) => Some (ExitError status b)
  | _ => err
  end.

(** What the watcher does to the process when it sees the cancellation. *)
Definition policy_event {os : OsExec} (f : option Func) : event :=
  match f with
  | None => Kill
  | Some g => Cancel g
  end.

(** * Proofs for the saver *)

(** ** Lists of bytes: lengths, [take] and [drop] *)

Lemma lenb_nonneg (p : bytes) : 0 <= lenb p.
Proof. unfold lenb. lia. Qed.

Lemma lenb_nil : lenb [] = 0.
Proof. reflexivity. Qed.

Lemma lenb_app (a b : bytes) : lenb (a ++ b) = lenb a + lenb b.
Proof. unfold lenb. rewrite length_app. lia. Qed.

Lemma lenb_zero (p : bytes) : lenb p <= 0 -> p = [].
Proof. destruct p; [reflexivity | unfold lenb; simpl; lia]. Qed.

Lemma lenb_pos (p : bytes) : p <> [] -> 0 < lenb p.
Proof.
  intros H. destruct p; [congruence | unfold lenb; simpl; lia].
Qed.

Lemma take_drop (k : Z) (p : bytes) : take k p ++ drop k p = p.
Proof. apply firstn_skipn. Qed.

Lemma lenb_take (k : Z) (p : bytes) :
  0 <= k -> lenb (take k p) = Z.min k (lenb p).
Proof. intros Hk. unfold lenb, take. rewrite length_firstn. lia. Qed.

Lemma lenb_drop (k : Z) (p : bytes) :
  0 <= k -> lenb (drop k p) = Z.max 0 (lenb p - k).
Proof. intros Hk. unfold lenb, drop. rewrite length_skipn. lia. Qed.

Lemma take_nonpos (k : Z) (p : bytes) : k <= 0 -> take k p = [].
Proof.
  intros Hk. unfold take. replace (Z.to_nat k) with 0%nat by lia. reflexivity.
Qed.

Lemma drop_nonpos (k : Z) (p : bytes) : k <= 0 -> drop k p = p.
Proof.
  intros Hk. unfold drop. replace (Z.to_nat k) with 0%nat by lia. reflexivity.
Qed.

Lemma take_nil (k : Z) : take k [] = [].
Proof. apply firstn_nil. Qed.

Lemma drop_nil (k : Z) : drop k [] = [].
Proof. apply skipn_nil. Qed.

Lemma take_all (k : Z) (p : bytes) : lenb p <= k -> take k p = p.
Proof. intros Hk. apply firstn_all2. unfold lenb in Hk. lia. Qed.

Lemma drop_all (k : Z) (p : bytes) : lenb p <= k -> drop k p = [].
Proof. intros Hk. apply skipn_all2. unfold lenb in Hk. lia. Qed.

Lemma take_app_l (k : Z) (a b : bytes) :
  k <= lenb a -> take k (a ++ b) = take k a.
Proof.
  intros Hk. unfold take, lenb in *. rewrite firstn_app.
  replace (Z.to_nat k - List.length a)%nat with 0%nat by lia.
  simpl. apply app_nil_r.
Qed.

Lemma drop_app_l (k : Z) (a b : bytes) :
  k <= lenb a -> drop k (a ++ b) = drop k a ++ b.
Proof.
  intros Hk. unfold drop, lenb in *. rewrite skipn_app.
  replace (Z.to_nat k - List.length a)%nat with 0%nat by lia.
  reflexivity.
Qed.

Lemma take_app_r (k : Z) (a b : bytes) :
  lenb a <= k -> take k (a ++ b) = a ++ take (k - lenb a) b.
Proof.
  intros Hk. unfold take, lenb in *. rewrite firstn_app.
  rewrite firstn_all2 by lia. f_equal. f_equal. lia.
Qed.

Lemma drop_app_r (k : Z) (a b : bytes) :
  lenb a <= k -> drop k (a ++ b) = drop (k - lenb a) b.
Proof.
  intros Hk. unfold drop, lenb in *. rewrite skipn_app.
  rewrite skipn_all2 by lia. simpl. f_equal. lia.
Qed.

Lemma int64_small (z : Z) : - 2 ^ 63 <= z < 2 ^ 63 -> int64 z = z.
Proof. intros H. unfold int64. rewrite Z.mod_small; lia. Qed.

Lemma int64_add (a b : Z) : int64 (int64 a + b) = int64 (a + b).
Proof.
  unfold int64.
  replace ((a + 2 ^ 63) mod 2 ^ 64 - 2 ^ 63 + b + 2 ^ 63)
    with ((a + 2 ^ 63) mod 2 ^ 64 + b) by lia.
  rewrite Zplus_mod_idemp_l. f_equal. f_equal. lia.
Qed.

Lemma int64_zero (z : Z) : 0 <= z < 2 ^ 63 -> int64 z = 0 -> z = 0.
Proof. intros H E. rewrite int64_small in E; lia. Qed.

(** ** [fill] *)

Lemma len_nonneg (d : slice) : 0 <= len d.
Proof. apply lenb_nonneg. Qed.

Lemma append_elems (d : slice) (xs : bytes) : elems (append d xs) = elems d ++ xs.
Proof. destruct xs; simpl; [now rewrite app_nil_r | reflexivity]. Qed.

Lemma append_nonnil (d : slice) (xs : bytes) :
  d <> Some [] -> append d xs <> Some [].
Proof.
  intros H. destruct xs; simpl; [exact H |].
  intros E. injection E as E. destruct (elems d); discriminate.
Qed.

Lemma fill_elems (n : Z) (dst : slice) (p : bytes) :
  len dst <= n ->
  elems (fst (fill n dst p)) = elems dst ++ take (n - len dst) p.
Proof.
  intros H. unfold fill, minInt.
  destruct (0 <? n - len dst) eqn:E; simpl.
  - rewrite append_elems. f_equal.
    destruct (lenb p <? n - len dst) eqn:E2; [| reflexivity].
    apply Z.ltb_lt in E2. rewrite !take_all by lia. reflexivity.
  - apply Z.ltb_ge in E. rewrite take_nonpos by lia. now rewrite app_nil_r.
Qed.

Lemma fill_rest (n : Z) (dst : slice) (p : bytes) :
  len dst <= n ->
  snd (fill n dst p) = drop (n - len dst) p.
Proof.
  intros H. unfold fill, minInt.
  destruct (0 <? n - len dst) eqn:E; simpl.
  - destruct (lenb p <? n - len dst) eqn:E2; [| reflexivity].
    apply Z.ltb_lt in E2. rewrite !drop_all by lia. reflexivity.
  - apply Z.ltb_ge in E. rewrite drop_nonpos by lia. reflexivity.
Qed.

Lemma fill_nonnil (n : Z) (dst : slice) (p : bytes) :
  dst <> Some [] -> fst (fill n dst p) <> Some [].
Proof.
  intros H. unfold fill. destruct (0 <? n - len dst); simpl; [| exact H].
  now apply append_nonnil.
Qed.

(** ** The ring loop *)

Lemma overwrite_nil (fuel : nat) (w : prefixSuffixSaver) :
  overwrite fuel w [] = Ok w.
Proof. destruct fuel; reflexivity. Qed.

Lemma overwrite_ring (fuel : nat) :
  forall (w : prefixSuffixSaver) (p : bytes),
    full_ring w -> lenb p <= N w -> (need w p <= fuel)%nat ->
    exists w',
      overwrite fuel w p = Ok w' /\ N w' = N w /\ prefix w' = prefix w /\
      full_ring w' /\
      ring w' = drop (lenb p) (ring w) ++ p /\
      (forall m, skipped w = int64 m -> skipped w' = int64 (m + lenb p)) /\
      (p = [] -> w' = w) /\
      (suffix w <> Some [] -> suffix w' <> Some []).
Proof.
  induction fuel as [| fuel IH]; intros w p Hfull Hp Hneed.
  - unfold need in Hneed.
    destruct (lenb p <=? 0) eqn:E0.
    + apply Z.leb_le in E0. apply lenb_zero in E0. subst p.
      exists w. rewrite lenb_nil, drop_nonpos, app_nil_r by lia.
      do 4 (split; [reflexivity || assumption |]).
      split; [reflexivity |].
      split; [intros m ->; now rewrite Z.add_0_r | tauto].
    + destruct (lenb p <=? N w - suffixOff w); lia.
  - destruct p as [| b0 p0].
    { exists w. rewrite overwrite_nil, lenb_nil, drop_nonpos, app_nil_r by lia.
      do 4 (split; [reflexivity || assumption |]).
      split; [reflexivity |].
      split; [intros m ->; now rewrite Z.add_0_r | tauto]. }
    set (p := b0 :: p0) in *.
    assert (Hpos : 0 < lenb p) by (apply lenb_pos; discriminate).
    destruct Hfull as [Hlen Hoff].
    set (off := suffixOff w) in *.
    set (A := take off (elems (suffix w))).
    set (B := drop off (elems (suffix w))).
    assert (HAB : elems (suffix w) = A ++ B) by (symmetry; apply take_drop).
    assert (HlA : lenb A = off).
    { unfold A. rewrite lenb_take by lia. unfold len in Hlen. lia. }
    assert (HlB : lenb B = N w - off).
    { unfold B. rewrite lenb_drop by lia. unfold len in Hlen. lia. }
    set (n := Z.min (lenb (elems (suffix w)) - off) (lenb p)).
    assert (Hn : n = Z.min (lenb B) (lenb p)).
    { unfold n. unfold len in Hlen. rewrite Hlen, HlB. reflexivity. }
    assert (Hn0 : 0 < n) by lia.
    set (suf1 := take off (elems (suffix w)) ++ take n p
                 ++ drop (off + n) (elems (suffix w))).
    assert (Hsuf1 : suf1 = A ++ take n p ++ drop n B).
    { unfold suf1. fold A. f_equal. f_equal.
      rewrite HAB, drop_app_r by lia. f_equal. lia. }
    set (w1 := {| N := N w; prefix := prefix w; suffix := Some suf1;
                  suffixOff := if off + n =? N w then 0 else off + n;
                  skipped := int64 (skipped w + n) |}).
    assert (Hstep : overwrite (S fuel) w p = overwrite fuel w1 (drop n p)).
    { cbn [overwrite]. fold p.
      replace (0 <? lenb p) with true by (symmetry; apply Z.ltb_lt; lia).
      fold off.
      replace (off <? 0) with false by (symmetry; apply Z.ltb_ge; lia).
      replace (len (suffix w) <? off) with false
        by (symmetry; apply Z.ltb_ge; lia).
      cbn [orb]. unfold copy_at. fold n. reflexivity. }
    assert (Hltn : lenb (take n p) = n) by (rewrite lenb_take; lia).
    assert (Hldn : lenb (drop n B) = lenb B - n) by (rewrite lenb_drop; lia).
    assert (Hfull1 : full_ring w1).
    { unfold full_ring, w1, len; cbn [suffix N suffixOff elems].
      rewrite Hsuf1, !lenb_app, Hltn, Hldn, HlA, HlB.
      split; [lia |]. destruct (off + n =? N w) eqn:E; [lia |].
      apply Z.eqb_neq in E. lia. }
    assert (Hlp' : lenb (drop n p) = lenb p - n) by (rewrite lenb_drop; lia).
    assert (Hring1 : ring w1 = drop n B ++ A ++ take n p).
    { unfold ring, w1; cbn [suffix suffixOff elems]. rewrite Hsuf1.
      destruct (off + n =? N w) eqn:E.
      - apply Z.eqb_eq in E.
        rewrite (drop_nonpos 0), (take_nonpos 0), app_nil_r by lia.
        rewrite (drop_all n B) by lia. rewrite app_nil_r. reflexivity.
      - rewrite app_assoc.
        rewrite drop_app_r by (rewrite lenb_app; lia).
        rewrite take_app_r by (rewrite lenb_app; lia).
        rewrite lenb_app, Hltn, HlA.
        replace (off + n - (off + n)) with 0 by lia.
        rewrite (drop_nonpos 0), (take_nonpos 0), app_nil_r by lia.
        reflexivity. }
    destruct (IH w1 (drop n p)) as (w' & Hrun & HN & Hpre & Hfull' & Hring & Hsk & Hnil & Hnn).
    + exact Hfull1.
    + rewrite Hlp'. cbn [N w1]. lia.
    + unfold need in *. rewrite Hlp'. cbn [N suffixOff w1].
      fold off in Hneed.
      destruct (lenb p <=? 0) eqn:E0; [apply Z.leb_le in E0; lia |].
      destruct (lenb p <=? N w - off) eqn:E1.
      * apply Z.leb_le in E1.
        replace (lenb p - n <=? 0) with true by (symmetry; apply Z.leb_le; lia).
        lia.
      * apply Z.leb_gt in E1.
        destruct (lenb p - n <=? 0); [lia |].
        replace (off + n =? N w) with true by (symmetry; apply Z.eqb_eq; lia).
        replace (lenb p - n <=? N w - 0) with true
          by (symmetry; apply Z.leb_le; lia).
        lia.
    + exists w'. rewrite Hstep. split; [exact Hrun |].
      split; [exact HN |]. split; [exact Hpre |].
      split; [exact Hfull' |].
      split; [| split; [| split]].
      * rewrite Hring, Hring1, Hlp'.
        unfold ring. fold off A B.
        destruct (Z.le_gt_cases (lenb p) (lenb B)) as [Hle | Hgt].
        -- replace n with (lenb p) in * by lia.
           rewrite Z.sub_diag, drop_nonpos by lia.
           rewrite (take_all (lenb p) p), (drop_all (lenb p) p) by lia.
           rewrite app_nil_r, drop_app_l by lia.
           now rewrite <- !app_assoc.
        -- replace n with (lenb B) in * by lia.
           rewrite (drop_all (lenb B) B) by lia. cbn [app].
           rewrite drop_app_l by lia.
           rewrite drop_app_r by lia.
           rewrite <- !app_assoc. f_equal.
           apply take_drop.
      * intros m Hm. rewrite (Hsk (m + n)).
        -- f_equal. lia.
        -- cbn [skipped w1]. rewrite Hm. apply int64_add.
      * discriminate.
      * intros _. apply Hnn. cbn [suffix w1]. intros E. injection E as E.
        assert (lenb suf1 = 0) by (rewrite E; reflexivity).
        rewrite Hsuf1, !lenb_app in H. lia.
Qed.

(** ** The suffix phase of [Write]: [fill] on the suffix, then the ring loop *)

Lemma lenb_rot (off : Z) (x : bytes) :
  0 <= off -> lenb (drop off x ++ take off x) = lenb x.
Proof.
  intros H. rewrite lenb_app, lenb_drop, lenb_take by lia.
  pose proof (lenb_nonneg x). lia.
Qed.

Lemma lastn_short (n : Z) (x : bytes) : lenb x <= n -> lastn n x = x.
Proof. intros H. unfold lastn. apply drop_nonpos. lia. Qed.

Lemma lastn_app (n : Z) (x y : bytes) : lenb y = n -> lastn n (x ++ y) = y.
Proof.
  intros H. unfold lastn. rewrite lenb_app, drop_app_r by lia.
  apply drop_nonpos. lia.
Qed.

Lemma suffix_phase (fuel : nat) (n : Z) (pre suf0 : slice) (off skp : Z)
    (p2 : bytes) :
  (2 <= fuel)%nat -> 0 < n -> len suf0 <= n -> 0 <= off < n ->
  (len suf0 < n -> off = 0) -> suf0 <> Some [] -> lenb p2 <= n ->
  exists w',
    overwrite fuel
      {| N := n; prefix := pre; suffix := fst (fill n suf0 p2);
         suffixOff := off; skipped := skp |}
      (snd (fill n suf0 p2)) = Ok w' /\
    N w' = n /\ prefix w' = pre /\
    len (suffix w') = Z.min n (len suf0 + lenb p2) /\
    0 <= suffixOff w' < n /\
    (len suf0 + lenb p2 <= n -> suffixOff w' = off) /\
    suffix w' <> Some [] /\
    ring w' =
      lastn n ((drop off (elems suf0) ++ take off (elems suf0)) ++ p2) /\
    (forall m, skp = int64 m ->
       skipped w' = int64 (m + Z.max 0 (len suf0 + lenb p2 - n))).
Proof.
  intros Hfuel Hn Hlen Hoff Hoff0 Hnn Hp2.
  pose proof (len_nonneg suf0) as Hl0.
  pose proof (lenb_nonneg p2) as Hp0.
  set (S0 := elems suf0) in *.
  assert (HS0 : lenb S0 = len suf0) by reflexivity.
  set (b := n - len suf0).
  set (w1 := {| N := n; prefix := pre; suffix := fst (fill n suf0 p2);
                suffixOff := off; skipped := skp |}).
  assert (Hsuf : elems (suffix w1) = S0 ++ take b p2)
    by (apply fill_elems; exact Hlen).
  assert (Hrest : snd (fill n suf0 p2) = drop b p2)
    by (apply fill_rest; exact Hlen).
  assert (Hnn1 : suffix w1 <> Some []) by (now apply fill_nonnil).
  assert (HlR : lenb (drop off S0 ++ take off S0) = len suf0)
    by (apply lenb_rot; lia).
  assert (Hring1 : ring w1 = (drop off S0 ++ take off S0) ++ take b p2).
  { unfold ring. rewrite Hsuf. cbn [suffixOff w1].
    destruct (Z.eq_dec (len suf0) n) as [E | E].
    - unfold b. rewrite E, Z.sub_diag, take_nonpos, !app_nil_r by lia.
      reflexivity.
    - rewrite Hoff0 by lia.
      rewrite !(drop_nonpos 0), !(take_nonpos 0), !app_nil_r by lia.
      reflexivity. }
  rewrite Hrest.
  destruct (Z.le_gt_cases (lenb p2) b) as [Hfit | Hover].
  - exists w1. rewrite drop_all, overwrite_nil by lia.
    split; [reflexivity |]. split; [reflexivity |]. split; [reflexivity |].
    split.
    { unfold len at 1. rewrite Hsuf, lenb_app, lenb_take by lia. lia. }
    split; [exact Hoff |]. split; [reflexivity |]. split; [exact Hnn1 |].
    split.
    { rewrite Hring1, (take_all b p2) by lia. symmetry. apply lastn_short.
      rewrite lenb_app, HlR. lia. }
    intros m Hm. cbn [skipped w1]. rewrite Hm. f_equal. lia.
  - assert (Hfull1 : full_ring w1).
    { split; [| exact Hoff]. unfold len at 1.
      rewrite Hsuf, lenb_app, lenb_take by lia. cbn [N w1]. lia. }
    assert (Hl3 : lenb (drop b p2) = lenb p2 - b) by (rewrite lenb_drop; lia).
    destruct (overwrite_ring fuel w1 (drop b p2))
      as (w' & Hrun & HN & Hpre & [Hlen' Hoff'] & Hring & Hsk & _ & Hnn').
    + exact Hfull1.
    + rewrite Hl3. cbn [N w1]. lia.
    + unfold need.
      destruct (lenb (drop b p2) <=? 0); [lia |].
      destruct (lenb (drop b p2) <=? N w1 - suffixOff w1); lia.
    + exists w'. split; [exact Hrun |]. split; [exact HN |].
      split; [exact Hpre |].
      change (N w1) with n in HN. rewrite HN in *.
      split; [lia |]. split; [exact Hoff' |]. split; [lia |].
      split; [now apply Hnn' |].
      split.
      * rewrite Hring, Hring1, Hl3.
        assert (Hltb : lenb (take b p2) = b) by (rewrite lenb_take; lia).
        rewrite <- drop_app_l by (rewrite lenb_app, HlR, Hltb; lia).
        rewrite <- app_assoc, take_drop.
        unfold lastn. f_equal. rewrite lenb_app, HlR. unfold b. lia.
      * intros m Hm. rewrite (Hsk m Hm). f_equal. rewrite Hl3. unfold b. lia.
Qed.

(** ** [Write] keeps the invariant *)

Lemma Inv_new (n : Z) : 0 < n -> Inv [] (newSaver n).
Proof.
  intros Hn. constructor; cbn; try lia; try discriminate.
  exists []. cbn. repeat split; reflexivity.
Qed.

Lemma drop_max0 (j : Z) (x : bytes) : drop (Z.max 0 j) x = drop j x.
Proof.
  destruct (Z.le_gt_cases j 0) as [H | H].
  - rewrite Z.max_l, !drop_nonpos by lia. reflexivity.
  - rewrite Z.max_r by lia. reflexivity.
Qed.

(** One [Write] on a saver that satisfies the invariant returns [len(p)] and
    re-establishes the invariant for the extended stream. *)
Lemma Write_Inv (fuel : nat) (st : bytes) (w : prefixSuffixSaver) (p : bytes) :
  (2 <= fuel)%nat -> Inv st w ->
  exists w', Write fuel w p = Ok (w', lenb p) /\ Inv (st ++ p) w' /\ N w' = N w.
Proof.
  intros Hfuel [HN Hpl Hsl Hoff Hpn Hsn (mid & Hst & Hsk & Hpre0 & Hmid0 & Hoff0)].
  pose proof (len_nonneg (prefix w)) as Hp0.
  pose proof (len_nonneg (suffix w)) as Hs0.
  pose proof (lenb_nonneg p) as Hlp0.
  unfold Write.
  set (a := N w - len (prefix w)).
  assert (Hpre : elems (fst (fill (N w) (prefix w) p))
                 = elems (prefix w) ++ take a p) by (now apply fill_elems).
  assert (Hp1 : snd (fill (N w) (prefix w) p) = drop a p) by (now apply fill_rest).
  assert (Hpn' : fst (fill (N w) (prefix w) p) <> Some []) by (now apply fill_nonnil).
  destruct (fill (N w) (prefix w) p) as [pre p1]. cbn [fst snd] in *. subst p1.
  set (H := take a p) in *. set (p1 := drop a p) in *.
  assert (HlH : lenb H = Z.min a (lenb p)) by (apply lenb_take; lia).
  assert (Hlp1 : lenb p1 = Z.max 0 (lenb p - a)) by (apply lenb_drop; lia).
  assert (Hp : p = H ++ p1) by (symmetry; apply take_drop).
  set (R := drop (suffixOff w) (elems (suffix w))
            ++ take (suffixOff w) (elems (suffix w))) in *.
  assert (HlR : lenb R = len (suffix w)) by (apply lenb_rot; lia).
  assert (Hcomm : (mid ++ R) ++ H = H ++ mid ++ R).
  { destruct (Z.eq_dec (len (prefix w)) (N w)) as [E | E].
    - assert (H = []) as -> by (apply lenb_zero; lia).
      now rewrite app_nil_r.
    - assert (mid = []) as -> by (apply Hmid0; lia).
      assert (R = []) as -> by (apply lenb_zero; lia).
      cbn [app]. now rewrite app_nil_r. }
  assert (Hlpre : len pre = len (prefix w) + lenb H).
  { unfold len at 1. rewrite Hpre, lenb_app. reflexivity. }
  set (overage := lenb p1 - N w).
  destruct (0 <? overage) eqn:Eov.
  - (* more than N bytes left after the prefix: the excess is dropped *)
    apply Z.ltb_lt in Eov.
    replace (lenb p1 <? overage) with false by (symmetry; apply Z.ltb_ge; lia).
    cbn [bind].
    set (D := take overage p1). set (p2 := drop overage p1).
    assert (HlD : lenb D = overage) by (unfold D; rewrite lenb_take; lia).
    assert (Hlp2 : lenb p2 = N w) by (unfold p2; rewrite lenb_drop; lia).
    assert (Hp12 : p1 = D ++ p2) by (symmetry; apply take_drop).
    destruct (suffix_phase fuel (N w) pre (suffix w) (suffixOff w)
                (int64 (skipped w + overage)) p2)
      as (w' & Hrun & HN' & Hpre' & Hlen' & Hoff' & Hkeep & Hsn' & Hring & Hsk');
      try assumption; try lia.
    { intros Hlt. apply Hoff0, Hmid0, Hlt. }
    destruct (fill (N w) (suffix w) p2) as [suf p3]. cbn [fst snd] in Hrun.
    rewrite Hrun. cbn [bind].
    exists w'. split; [reflexivity |]. split; [| exact HN'].
    constructor; rewrite ?HN', ?Hpre'; try assumption; try lia.
    exists (mid ++ R ++ D).
    split.
    { rewrite Hring. fold R. rewrite lastn_app by exact Hlp2.
      rewrite Hpre, Hst, Hp, Hp12. unfold ring. fold R.
      rewrite <- !app_assoc. f_equal.
      rewrite !app_assoc. f_equal. f_equal.
      rewrite <- !app_assoc. rewrite <- Hcomm. now rewrite <- !app_assoc. }
    split.
    { rewrite (Hsk' (lenb mid + overage)).
      - f_equal. rewrite !lenb_app. lia.
      - rewrite Hsk. apply int64_add. }
    split; [lia |]. split; [lia |].
    intros E. exfalso.
    assert (lenb (mid ++ R ++ D) = 0) by (rewrite E; reflexivity).
    rewrite !lenb_app in H0. pose proof (lenb_nonneg mid). lia.
  - (* at most N bytes left after the prefix *)
    apply Z.ltb_ge in Eov. cbn [bind].
    destruct (suffix_phase fuel (N w) pre (suffix w) (suffixOff w)
                (skipped w) p1)
      as (w' & Hrun & HN' & Hpre' & Hlen' & Hoff' & Hkeep & Hsn' & Hring & Hsk');
      try assumption; try lia.
    { intros Hlt. apply Hoff0, Hmid0, Hlt. }
    destruct (fill (N w) (suffix w) p1) as [suf p3]. cbn [fst snd] in Hrun.
    rewrite Hrun. cbn [bind].
    exists w'. split; [reflexivity |]. split; [| exact HN'].
    set (k := Z.max 0 (len (suffix w) + lenb p1 - N w)) in *.
    assert (Hlast : lastn (N w) (R ++ p1) = drop k (R ++ p1)).
    { unfold lastn, k. rewrite lenb_app, HlR. symmetry. apply drop_max0. }
    assert (Hltk : lenb (take k (R ++ p1)) = k).
    { rewrite lenb_take, lenb_app, HlR by lia. lia. }
    constructor; rewrite ?HN', ?Hpre'; try assumption; try lia.
    exists (mid ++ take k (R ++ p1)).
    split.
    { rewrite Hring. fold R. rewrite Hlast.
      rewrite Hpre, Hst, Hp. unfold ring. fold R.
      rewrite <- !app_assoc. f_equal.
      rewrite take_drop.
      rewrite !app_assoc. f_equal.
      rewrite <- !app_assoc. rewrite <- Hcomm. now rewrite <- !app_assoc. }
    split.
    { rewrite (Hsk' (lenb mid) Hsk). f_equal. rewrite lenb_app, Hltk. reflexivity. }
    split; [lia |].
    split.
    { intros Hlt. assert (Hk0 : k = 0) by lia.
      rewrite Hmid0 by lia. rewrite Hk0, take_nonpos by lia. reflexivity. }
    intros E.
    assert (Hz : lenb (mid ++ take k (R ++ p1)) = 0) by (rewrite E; reflexivity).
    rewrite lenb_app, Hltk in Hz. pose proof (lenb_nonneg mid).
    assert (mid = []) by (apply lenb_zero; lia).
    rewrite Hkeep by lia. now apply Hoff0.
Qed.

Lemma writes_Inv (fuel : nat) (ps : list bytes) :
  forall (st : bytes) (w : prefixSuffixSaver),
    (2 <= fuel)%nat -> Inv st w ->
    exists w', writes fuel w ps = Ok w' /\ Inv (st ++ List.concat ps) w' /\ N w' = N w.
Proof.
  induction ps as [| p ps IH]; intros st w Hfuel HI.
  - exists w. cbn. rewrite app_nil_r. auto.
  - destruct (Write_Inv fuel st w p Hfuel HI) as (w1 & HW & HI1 & HN1).
    destruct (IH (st ++ p) w1 Hfuel HI1) as (w2 & HW2 & HI2 & HN2).
    exists w2. cbn [writes List.concat]. rewrite HW. cbn [bind].
    rewrite app_assoc. split; [exact HW2 |]. split; [exact HI2 | congruence].
Qed.

(** Every sequence of writes on a fresh saver of positive capacity returns
    and leaves the invariant. *)
Lemma writes_new (fuel : nat) (n : Z) (ps : list bytes) :
  0 < n -> (2 <= fuel)%nat ->
  exists w, writes fuel (newSaver n) ps = Ok w /\ Inv (List.concat ps) w /\ N w = n.
Proof.
  intros Hn Hfuel.
  destruct (writes_Inv fuel ps [] (newSaver n) Hfuel (Inv_new n Hn))
    as (w & HW & HI & HN).
  exists w. auto.
Qed.

Lemma lenb_ring (w : prefixSuffixSaver) :
  0 <= suffixOff w -> lenb (ring w) = len (suffix w).
Proof. intros H. unfold ring. now apply lenb_rot. Qed.

(** Writes that all fit in the prefix: any capacity, any iteration budget. *)
Lemma Write_small (fuel : nat) (n : Z) (pre : slice) (p : bytes) :
  len pre + lenb p <= n ->
  Write fuel
    {| N := n; prefix := pre; suffix := None; suffixOff := 0; skipped := 0 |} p
  = Ok ({| N := n; prefix := append pre p; suffix := None; suffixOff := 0;
           skipped := 0 |}, lenb p).
Proof.
  intros Hfit.
  pose proof (len_nonneg pre) as Hp0. pose proof (lenb_nonneg p) as Hl0.
  unfold Write, fill, minInt. cbn [N prefix suffix suffixOff skipped].
  destruct (0 <? n - len pre) eqn:E.
  - assert (Hadd : (if lenb p <? n - len pre then lenb p else n - len pre) = lenb p).
    { destruct (lenb p <? n - len pre) eqn:E2; [reflexivity |].
      apply Z.ltb_ge in E2. lia. }
    rewrite Hadd, take_all, drop_all by lia.
    change (lenb []) with 0. change (len None) with 0.
    replace (0 <? 0 - n) with false by (symmetry; apply Z.ltb_ge; lia).
    cbn [bind]. rewrite Z.sub_0_r.
    replace (0 <? n) with true by (symmetry; apply Z.ltb_lt; apply Z.ltb_lt in E; lia).
    rewrite take_nil, drop_nil. cbn [append]. rewrite overwrite_nil. reflexivity.
  - apply Z.ltb_ge in E. assert (p = []) as -> by (apply lenb_zero; lia).
    change (lenb []) with 0. change (len None) with 0.
    replace (0 <? 0 - n) with false by (symmetry; apply Z.ltb_ge; lia).
    cbn [bind].
    destruct (0 <? n - 0); rewrite ?take_nil, ?drop_nil; cbn [append];
      rewrite overwrite_nil; reflexivity.
Qed.

Lemma writes_small (fuel : nat) (n : Z) (ps : list bytes) :
  forall pre : slice,
    len pre + lenb (List.concat ps) <= n ->
    exists pre',
      writes fuel
        {| N := n; prefix := pre; suffix := None; suffixOff := 0; skipped := 0 |}
        ps
      = Ok {| N := n; prefix := pre'; suffix := None; suffixOff := 0;
              skipped := 0 |} /\
      elems pre' = elems pre ++ List.concat ps.
Proof.
  induction ps as [| p ps IH]; intros pre Hfit.
  - exists pre. cbn. now rewrite app_nil_r.
  - cbn [List.concat] in Hfit. rewrite lenb_app in Hfit.
    pose proof (lenb_nonneg (List.concat ps)).
    destruct (IH (append pre p)) as (pre' & HW & HE).
    { unfold len. rewrite append_elems, lenb_app. fold (len pre). lia. }
    exists pre'. cbn [writes List.concat]. rewrite Write_small by lia.
    cbn [bind]. split; [exact HW |].
    rewrite HE, append_elems. now rewrite <- app_assoc.
Qed.

Lemma writes_app (fuel : nat) (ps1 ps2 : list bytes) :
  forall w : prefixSuffixSaver,
    writes fuel w (ps1 ++ ps2) = (w' <- writes fuel w ps1 ;; writes fuel w' ps2).
Proof.
  induction ps1 as [| p ps1 IH]; intros w; cbn [writes app bind].
  - reflexivity.
  - destruct (Write fuel w p) as [[w1 k] | |]; cbn [bind]; auto.
Qed.

Lemma Inv_retained (st : bytes) (w : prefixSuffixSaver) :
  Inv st w ->
  elems (prefix w) = take (len (prefix w)) st /\
  ring w = lastn (len (suffix w)) st /\
  skipped w = int64 (lenb st - (len (prefix w) + len (suffix w))) /\
  (skipped w <> 0 -> len (suffix w) = N w /\ len (prefix w) = N w) /\
  (lenb st < 2 ^ 63 -> skipped w = 0 -> suffixOff w = 0) /\
  (len (suffix w) = 0 -> suffix w = None).
Proof.
  intros [HN Hpl Hsl Hoff Hpn Hsn (mid & Hst & Hsk & Hpre0 & Hmid0 & Hoff0)].
  assert (HlR : lenb (ring w) = len (suffix w)) by (apply lenb_ring; lia).
  assert (Hlst : lenb st = len (prefix w) + lenb mid + len (suffix w)).
  { rewrite Hst, !lenb_app, HlR. unfold len. lia. }
  pose proof (lenb_nonneg mid) as Hm0.
  pose proof (len_nonneg (prefix w)) as Hp0.
  pose proof (len_nonneg (suffix w)) as Hs0.
  split.
  { rewrite Hst at 1. unfold len. rewrite take_app_l, take_all by lia.
    reflexivity. }
  split.
  { rewrite Hst at 1. rewrite app_assoc. symmetry. now apply lastn_app. }
  split.
  { rewrite Hsk. f_equal. lia. }
  split.
  { intros Hne. destruct (Z.eq_dec (len (suffix w)) (N w)) as [E | E];
      [split; [exact E | lia] |].
    exfalso. apply Hne. rewrite Hsk, Hmid0 by lia. reflexivity. }
  split.
  { intros Hb Hz. apply Hoff0. apply lenb_zero.
    rewrite Hsk in Hz. apply int64_zero in Hz; lia. }
  intros Hz. destruct (suffix w) as [[| b l] |].
  - now elim Hsn.
  - unfold len, lenb in Hz. cbn in Hz. lia.
  - reflexivity.
Qed.

(** ** Properties of the saver *)

(** C4. For a saver of capacity [n > 0] and every finite sequence of writes,
    after each call (after the writes [ps1] made so far, whatever writes [ps2]
    follow): the writes return, the prefix and the suffix hold at most [n]
    bytes each (at most [2n] together), the prefix is the head of the
    concatenated stream, the suffix ring read from its cursor is the tail of
    the stream, and [skipped] is the [int64] value of the stream length minus
    the retained bytes: exactly that difference while the stream is shorter
    than [2^63] bytes. *)
Theorem write_keeps_head_and_tail (n : Z) (ps1 ps2 : list bytes) (fuel : nat) :
  0 < n -> (2 <= fuel)%nat ->
  exists w,
    writes fuel (newSaver n) ps1 = Ok w /\
    writes fuel (newSaver n) (ps1 ++ ps2) = writes fuel w ps2 /\
    N w = n /\
    len (prefix w) <= n /\ len (suffix w) <= n /\
    len (prefix w) + len (suffix w) <= 2 * n /\
    elems (prefix w) = take (len (prefix w)) (List.concat ps1) /\
    ring w = lastn (len (suffix w)) (List.concat ps1) /\
    skipped w
      = int64 (lenb (List.concat ps1) - (len (prefix w) + len (suffix w))) /\
    (lenb (List.concat ps1) < 2 ^ 63 ->
     skipped w = lenb (List.concat ps1) - (len (prefix w) + len (suffix w))).
Proof.
  intros Hn Hfuel.
  destruct (writes_new fuel n ps1 Hn Hfuel) as (w & HW & HI & HN).
  destruct (Inv_retained _ _ HI) as (Hhead & Htail & Hsk & _).
  pose proof (inv_prefix _ _ HI) as Hpl. pose proof (inv_suffix _ _ HI) as Hsl.
  rewrite HN in *.
  exists w. split; [exact HW |].
  split; [rewrite writes_app, HW; reflexivity |].
  repeat (split; [assumption || lia |]).
  intros Hb. rewrite Hsk. apply int64_small.
  assert (Hle : len (prefix w) + len (suffix w) <= lenb (List.concat ps1)).
  { destruct HI as [_ _ _ Hoff _ _ (mid & Hst & _)].
    rewrite Hst at 1. rewrite !lenb_app, lenb_ring by lia.
    pose proof (lenb_nonneg mid). unfold len. lia. }
  pose proof (len_nonneg (prefix w)). pose proof (len_nonneg (suffix w)). lia.
Qed.

Lemma write_keeps_head_and_tail_witness :
  0 < 4 /\ (2 <= 2)%nat /\
  exists w,
    writes 2 (newSaver 4)
      [list_byte_of_string "ABCDEF"; list_byte_of_string "GHIJ"] = Ok w /\
    writes 2 (newSaver 4)
      ([list_byte_of_string "ABCDEF"; list_byte_of_string "GHIJ"]
       ++ [list_byte_of_string "KL"])
    = writes 2 w [list_byte_of_string "KL"] /\
    N w = 4 /\
    len (prefix w) <= 4 /\ len (suffix w) <= 4 /\
    len (prefix w) + len (suffix w) <= 2 * 4 /\
    elems (prefix w)
      = take (len (prefix w))
          (List.concat [list_byte_of_string "ABCDEF"; list_byte_of_string "GHIJ"]) /\
    ring w
      = lastn (len (suffix w))
          (List.concat [list_byte_of_string "ABCDEF"; list_byte_of_string "GHIJ"]) /\
    skipped w
      = int64 (lenb (List.concat [list_byte_of_string "ABCDEF";
                                  list_byte_of_string "GHIJ"])
               - (len (prefix w) + len (suffix w))) /\
    (lenb (List.concat [list_byte_of_string "ABCDEF"; list_byte_of_string "GHIJ"])
       < 2 ^ 63 ->
     skipped w
       = lenb (List.concat [list_byte_of_string "ABCDEF";
                            list_byte_of_string "GHIJ"])
         - (len (prefix w) + len (suffix w))).
Proof.
  split; [lia |]. split; [lia |].
  apply (write_keeps_head_and_tail 4
           [list_byte_of_string "ABCDEF"; list_byte_of_string "GHIJ"]
           [list_byte_of_string "KL"] 2); lia.
Defined.

(** C5. With capacity 4, writing the ten bytes ABCDEFGHIJ leaves the prefix
    ABCD, the suffix GHIJ and [skipped = 2], and [Bytes] then yields ABCD, a
    newline, the text "... omitting 2 bytes ...", a newline, and GHIJ. *)
Theorem bytes_of_ten_letters (fuel : nat) :
  exists w,
    writes fuel (newSaver 4) [list_byte_of_string "ABCDEFGHIJ"] = Ok w /\
    elems (prefix w) = list_byte_of_string "ABCD" /\
    skipped w = 2 /\
    ring w = list_byte_of_string "GHIJ" /\
    Bytes w
    = Ok (list_byte_of_string
            ("ABCD" ++ newline ++ "... omitting 2 bytes ..." ++ newline
             ++ "GHIJ")).
Proof.
  eexists. split; [destruct fuel; vm_compute; reflexivity |].
  repeat split; vm_compute; reflexivity.
Qed.

(** C6. For every capacity [n] and every sequence of writes of total length
    at most [n], the writes return and [Bytes] is exactly the concatenation of
    the bytes written, with no omission marker. *)
Theorem bytes_of_short_stream (n : Z) (ps : list bytes) (fuel : nat) :
  lenb (List.concat ps) <= n ->
  exists w,
    writes fuel (newSaver n) ps = Ok w /\ Bytes w = Ok (List.concat ps).
Proof.
  intros Hfit.
  destruct (writes_small fuel n ps None) as (pre & HW & HE).
  { change (len None) with 0. lia. }
  eexists. split; [exact HW |].
  unfold Bytes. cbn [suffix prefix]. rewrite HE. reflexivity.
Qed.

Lemma bytes_of_short_stream_witness :
  lenb (List.concat [list_byte_of_string "AB"; list_byte_of_string "C"]) <= 4 /\
  exists w,
    writes 0 (newSaver 4) [list_byte_of_string "AB"; list_byte_of_string "C"]
      = Ok w /\
    Bytes w
      = Ok (List.concat [list_byte_of_string "AB"; list_byte_of_string "C"]).
Proof.
  split; [vm_compute; discriminate |].
  apply (bytes_of_short_stream 4
           [list_byte_of_string "AB"; list_byte_of_string "C"] 0).
  vm_compute; discriminate.
Defined.

(** C7. For a saver of capacity [n > 0], every sequence of writes returns, and
    when it leaves [skipped > 0], [Bytes] is the prefix (the first [n] bytes of
    the stream), then a newline, "... omitting ", the decimal value of
    [skipped], " bytes ..." and a newline, then the suffix read from the ring
    cursor to the end followed by the part before the cursor; that suffix
    segment is the last [n] bytes of the stream, in order. *)
Theorem bytes_after_skipping (n : Z) (ps : list bytes) (fuel : nat) :
  0 < n -> (2 <= fuel)%nat ->
  exists w,
    writes fuel (newSaver n) ps = Ok w /\
    (0 < skipped w ->
     Bytes w
       = Ok (elems (prefix w)
             ++ list_byte_of_string (newline ++ "... omitting ")
             ++ FormatInt (skipped w)
             ++ list_byte_of_string (" bytes ..." ++ newline)
             ++ drop (suffixOff w) (elems (suffix w))
             ++ take (suffixOff w) (elems (suffix w))) /\
     elems (prefix w) = take n (List.concat ps) /\
     drop (suffixOff w) (elems (suffix w)) ++ take (suffixOff w) (elems (suffix w))
       = lastn n (List.concat ps)).
Proof.
  intros Hn Hfuel.
  destruct (writes_new fuel n ps Hn Hfuel) as (w & HW & HI & HN).
  exists w. split; [exact HW |]. intros Hsk.
  destruct (Inv_retained _ _ HI) as (Hhead & Htail & _ & Hfull & _).
  pose proof (inv_off _ _ HI) as Hoff.
  destruct Hfull as [Hlen Hlenp]; [lia |].
  rewrite HN in Hoff, Hlen, Hlenp. rewrite Hlen in Htail. rewrite Hlenp in Hhead.
  split; [| split; [exact Hhead | exact Htail]].
  unfold Bytes, len in *.
  destruct (suffix w) as [suf |]; cbn [elems] in *.
  - replace (skipped w =? 0) with false by (symmetry; apply Z.eqb_neq; lia).
    replace (suffixOff w <? 0) with false by (symmetry; apply Z.ltb_ge; lia).
    replace (lenb suf <? suffixOff w) with false
      by (symmetry; apply Z.ltb_ge; lia).
    reflexivity.
  - change (lenb []) with 0 in Hlen. lia.
Qed.

Lemma bytes_after_skipping_witness :
  0 < 4 /\ (2 <= 2)%nat /\
  exists w,
    writes 2 (newSaver 4)
      [list_byte_of_string "ABCDEF"; list_byte_of_string "GHIJKLM"] = Ok w /\
    (0 < skipped w ->
     Bytes w
       = Ok (elems (prefix w)
             ++ list_byte_of_string (newline ++ "... omitting ")
             ++ FormatInt (skipped w)
             ++ list_byte_of_string (" bytes ..." ++ newline)
             ++ drop (suffixOff w) (elems (suffix w))
             ++ take (suffixOff w) (elems (suffix w))) /\
     elems (prefix w)
       = take 4 (List.concat [list_byte_of_string "ABCDEF";
                              list_byte_of_string "GHIJKLM"]) /\
     drop (suffixOff w) (elems (suffix w)) ++ take (suffixOff w) (elems (suffix w))
       = lastn 4 (List.concat [list_byte_of_string "ABCDEF";
                               list_byte_of_string "GHIJKLM"])).
Proof.
  split; [lia |]. split; [lia |].
  apply (bytes_after_skipping 4
           [list_byte_of_string "ABCDEF"; list_byte_of_string "GHIJKLM"] 2); lia.
Defined.

(** C9. For a saver of capacity [n > 0], after any sequence of writes the
    cursor [suffixOff] is in [0, n); and, for a stream shorter than [2^63]
    bytes, if [skipped] is 0 then [suffixOff] is 0, the ring has not wrapped
    (prefix followed by the suffix array is the whole stream in order), and
    [Bytes] returns the stream. *)
Theorem cursor_in_range_and_zero_before_skipping
    (n : Z) (ps : list bytes) (fuel : nat) :
  0 < n -> (2 <= fuel)%nat ->
  exists w,
    writes fuel (newSaver n) ps = Ok w /\
    0 <= suffixOff w < n /\
    (lenb (List.concat ps) < 2 ^ 63 -> skipped w = 0 ->
     suffixOff w = 0 /\
     elems (prefix w) ++ elems (suffix w) = List.concat ps /\
     Bytes w = Ok (List.concat ps)).
Proof.
  intros Hn Hfuel.
  destruct (writes_new fuel n ps Hn Hfuel) as (w & HW & HI & HN).
  exists w. split; [exact HW |].
  pose proof (inv_off _ _ HI) as Hoff. rewrite HN in Hoff.
  split; [exact Hoff |]. intros Hb Hz.
  destruct (Inv_retained _ _ HI) as (_ & _ & _ & _ & Hoff0 & _).
  specialize (Hoff0 Hb Hz).
  destruct HI as [_ _ _ _ _ _ (mid & Hst & Hsk & _ & _ & _)].
  assert (Hmid : mid = []).
  { apply lenb_zero. rewrite Hsk in Hz.
    assert (lenb mid <= lenb (List.concat ps)).
    { rewrite Hst, !lenb_app.
      pose proof (lenb_nonneg (elems (prefix w))).
      pose proof (lenb_nonneg (ring w)). lia. }
    pose proof (lenb_nonneg mid).
    apply int64_zero in Hz; lia. }
  subst mid. unfold ring in Hst.
  rewrite Hoff0, drop_nonpos, take_nonpos, app_nil_r in Hst by lia.
  cbn [app] in Hst.
  split; [exact Hoff0 |]. split; [now symmetry |].
  unfold Bytes. rewrite Hz. cbn [Z.eqb].
  destruct (suffix w) as [suf |]; cbn [elems] in Hst; rewrite Hst;
    [reflexivity | now rewrite app_nil_r].
Qed.

Lemma cursor_in_range_and_zero_before_skipping_witness :
  0 < 4 /\ (2 <= 2)%nat /\
  exists w,
    writes 2 (newSaver 4)
      [list_byte_of_string "ABCDEF"; list_byte_of_string "G"] = Ok w /\
    0 <= suffixOff w < 4 /\
    (lenb (List.concat [list_byte_of_string "ABCDEF"; list_byte_of_string "G"])
       < 2 ^ 63 ->
     skipped w = 0 ->
     suffixOff w = 0 /\
     elems (prefix w) ++ elems (suffix w)
       = List.concat [list_byte_of_string "ABCDEF"; list_byte_of_string "G"] /\
     Bytes w
       = Ok (List.concat [list_byte_of_string "ABCDEF"; list_byte_of_string "G"])).
Proof.
  split; [lia |]. split; [lia |].
  apply (cursor_in_range_and_zero_before_skipping 4
           [list_byte_of_string "ABCDEF"; list_byte_of_string "G"] 2); lia.
Defined.

(** ** Further properties of the saver *)

Lemma Bytes_Inv_returns (st : bytes) (w : prefixSuffixSaver) :
  Inv st w -> exists b, Bytes w = Ok b.
Proof.
  intros HI. pose proof (inv_off _ _ HI) as Hoff.
  destruct (Inv_retained _ _ HI) as (_ & _ & _ & Hfull & _).
  unfold Bytes. unfold len in Hfull.
  destruct (suffix w) as [suf |]; cbn [elems] in *; [| eauto].
  destruct (skipped w =? 0) eqn:E; [eauto |].
  apply Z.eqb_neq in E. destruct (Hfull E) as [Hlen _].
  replace (suffixOff w <? 0) with false by (symmetry; apply Z.ltb_ge; lia).
  replace (lenb suf <? suffixOff w) with false
    by (symmetry; apply Z.ltb_ge; lia).
  cbn [orb]. eauto.
Qed.

(** What [Bytes] returns, in terms of the stream alone. *)
Lemma Bytes_Inv_closed (st : bytes) (w : prefixSuffixSaver) :
  Inv st w ->
  (lenb st <= 2 * N w -> Bytes w = Ok st) /\
  (2 * N w < lenb st -> lenb st < 2 ^ 63 ->
   Bytes w
   = Ok (take (N w) st ++ omitting_head ++ FormatInt (lenb st - 2 * N w)
         ++ omitting_tail ++ lastn (N w) st)).
Proof.
  intros HI.
  destruct (Inv_retained _ _ HI) as (Hhead & Htail & _ & Hfull & _ & Hnil).
  destruct HI as [HN Hpl Hsl Hoff Hpn Hsn (mid & Hst & Hsk & Hpre0 & Hmid0 & Hoff0)].
  assert (HlR : lenb (ring w) = len (suffix w)) by (apply lenb_ring; lia).
  assert (Hlst : lenb st = len (prefix w) + lenb mid + len (suffix w)).
  { rewrite Hst, !lenb_app, HlR. unfold len. lia. }
  pose proof (lenb_nonneg mid) as Hm0.
  pose proof (len_nonneg (prefix w)) as Hp0.
  pose proof (len_nonneg (suffix w)) as Hs0.
  split.
  - intros Hle.
    assert (Hmid : mid = []).
    { destruct (Z.eq_dec (len (suffix w)) (N w)) as [E | E];
        [| apply Hmid0; lia].
      destruct (Z.eq_dec (len (prefix w)) (N w)) as [E2 | E2];
        [apply lenb_zero; lia |].
      assert (len (suffix w) = 0) by (apply Hpre0; lia). lia. }
    subst mid. specialize (Hoff0 eq_refl).
    assert (Hz : skipped w = 0) by (rewrite Hsk; reflexivity).
    unfold ring in Hst.
    rewrite Hoff0, drop_nonpos, take_nonpos, app_nil_r in Hst by lia.
    cbn [app] in Hst.
    unfold Bytes. rewrite Hz. cbn [Z.eqb].
    destruct (suffix w) as [suf |]; cbn [elems] in Hst; rewrite Hst;
      [reflexivity | now rewrite app_nil_r].
  - intros Hgt Hb.
    assert (Hmid : lenb mid = lenb st - 2 * N w /\ len (suffix w) = N w
                   /\ len (prefix w) = N w).
    { destruct (Z.eq_dec (len (suffix w)) (N w)) as [E | E].
      - destruct (Z.eq_dec (len (prefix w)) (N w)) as [E2 | E2]; [lia |].
        assert (len (suffix w) = 0) by (apply Hpre0; lia). lia.
      - assert (mid = []) as -> by (apply Hmid0; lia).
        change (lenb []) with 0 in Hlst. lia. }
    destruct Hmid as (Hlm & Hls & Hlp).
    assert (Hskv : skipped w = lenb st - 2 * N w).
    { rewrite Hsk, Hlm. apply int64_small. lia. }
    rewrite Hlp in Hhead. rewrite Hls in Htail.
    unfold Bytes. unfold len in Hls.
    destruct (suffix w) as [suf |] eqn:Es; cbn [elems] in *.
    + replace (skipped w =? 0) with false by (symmetry; apply Z.eqb_neq; lia).
      replace (suffixOff w <? 0) with false by (symmetry; apply Z.ltb_ge; lia).
      replace (lenb suf <? suffixOff w) with false
        by (symmetry; apply Z.ltb_ge; lia).
      cbn [orb]. rewrite Hskv, <- Hhead, <- Htail.
      unfold ring. rewrite Es. reflexivity.
    + change (lenb []) with 0 in Hls. lia.
Qed.

(** X1. A saver of positive capacity accepts every write: after any writes,
    one more [Write] of [p] returns [len(p)] (and a nil error); it neither
    panics nor loops. *)
Theorem Write_accepts_every_byte
    (n : Z) (ps : list bytes) (p : bytes) (fuel : nat) :
  0 < n -> (2 <= fuel)%nat ->
  exists w w',
    writes fuel (newSaver n) ps = Ok w /\ Write fuel w p = Ok (w', lenb p).
Proof.
  intros Hn Hfuel.
  destruct (writes_new fuel n ps Hn Hfuel) as (w & HW & HI & _).
  destruct (Write_Inv fuel _ w p Hfuel HI) as (w' & HWr & _).
  exists w, w'. auto.
Qed.

Lemma Write_accepts_every_byte_witness :
  0 < 4 /\ (2 <= 2)%nat /\
  exists w w',
    writes 2 (newSaver 4) [list_byte_of_string "ABCDEFG"] = Ok w /\
    Write 2 w (list_byte_of_string "HIJKLMNOPQRS")
    = Ok (w', lenb (list_byte_of_string "HIJKLMNOPQRS")).
Proof.
  split; [lia |]. split; [lia |].
  apply (Write_accepts_every_byte 4 [list_byte_of_string "ABCDEFG"]
           (list_byte_of_string "HIJKLMNOPQRS") 2); lia.
Defined.

(** X2. After any writes on a saver of positive capacity [Bytes] returns: its
    slice expressions [suffix[suffixOff:]] and [suffix[:suffixOff]] are
    always in range. *)
Theorem Bytes_returns_after_writes (n : Z) (ps : list bytes) (fuel : nat) :
  0 < n -> (2 <= fuel)%nat ->
  exists w b, writes fuel (newSaver n) ps = Ok w /\ Bytes w = Ok b.
Proof.
  intros Hn Hfuel.
  destruct (writes_new fuel n ps Hn Hfuel) as (w & HW & HI & _).
  destruct (Bytes_Inv_returns _ _ HI) as (b & Hb).
  exists w, b. auto.
Qed.

Lemma Bytes_returns_after_writes_witness :
  0 < 4 /\ (2 <= 2)%nat /\
  exists w b,
    writes 2 (newSaver 4)
      [list_byte_of_string "ABCDEFG"; list_byte_of_string "HIJKLMNOPQRS"]
    = Ok w /\
    Bytes w = Ok b.
Proof.
  split; [lia |]. split; [lia |].
  apply (Bytes_returns_after_writes 4
           [list_byte_of_string "ABCDEFG"; list_byte_of_string "HIJKLMNOPQRS"]
           2); lia.
Defined.

(** X3. Nothing is lost up to twice the capacity: when the writes total at
    most [2n] bytes, [Bytes] returns exactly the bytes written, with no
    omission marker. *)
Theorem Bytes_lossless_up_to_twice_capacity
    (n : Z) (ps : list bytes) (fuel : nat) :
  0 < n -> (2 <= fuel)%nat -> lenb (List.concat ps) <= 2 * n ->
  exists w,
    writes fuel (newSaver n) ps = Ok w /\ Bytes w = Ok (List.concat ps).
Proof.
  intros Hn Hfuel Hle.
  destruct (writes_new fuel n ps Hn Hfuel) as (w & HW & HI & HN).
  exists w. split; [exact HW |].
  apply (Bytes_Inv_closed _ _ HI). rewrite HN. exact Hle.
Qed.

Lemma Bytes_lossless_up_to_twice_capacity_witness :
  0 < 4 /\ (2 <= 2)%nat /\
  lenb (List.concat [list_byte_of_string "ABCDE"; list_byte_of_string "FGH"])
    <= 2 * 4 /\
  exists w,
    writes 2 (newSaver 4)
      [list_byte_of_string "ABCDE"; list_byte_of_string "FGH"] = Ok w /\
    Bytes w
    = Ok (List.concat [list_byte_of_string "ABCDE"; list_byte_of_string "FGH"]).
Proof.
  split; [lia |]. split; [lia |]. split; [vm_compute; discriminate |].
  apply (Bytes_lossless_up_to_twice_capacity 4
           [list_byte_of_string "ABCDE"; list_byte_of_string "FGH"] 2);
    [lia | lia | vm_compute; discriminate].
Defined.

(** X4. Beyond twice the capacity (and below [2^63] bytes) [Bytes] is the
    first [n] bytes of the stream, the marker with the number of bytes in
    between, which is the stream length minus [2n], and the last [n] bytes of
    the stream. *)
Theorem Bytes_of_long_stream (n : Z) (ps : list bytes) (fuel : nat) :
  0 < n -> (2 <= fuel)%nat ->
  2 * n < lenb (List.concat ps) -> lenb (List.concat ps) < 2 ^ 63 ->
  exists w,
    writes fuel (newSaver n) ps = Ok w /\
    Bytes w
    = Ok (take n (List.concat ps)
          ++ list_byte_of_string (newline ++ "... omitting ")
          ++ FormatInt (lenb (List.concat ps) - 2 * n)
          ++ list_byte_of_string (" bytes ..." ++ newline)
          ++ lastn n (List.concat ps)).
Proof.
  intros Hn Hfuel Hgt Hb.
  destruct (writes_new fuel n ps Hn Hfuel) as (w & HW & HI & HN).
  exists w. split; [exact HW |].
  destruct (Bytes_Inv_closed _ _ HI) as [_ H]. rewrite HN in H.
  now apply H.
Qed.

Lemma Bytes_of_long_stream_witness :
  0 < 2 /\ (2 <= 2)%nat /\
  2 * 2 < lenb (List.concat [list_byte_of_string "ABC";
                             list_byte_of_string "DEFGHIJKLMNOP"]) /\
  lenb (List.concat [list_byte_of_string "ABC";
                     list_byte_of_string "DEFGHIJKLMNOP"]) < 2 ^ 63 /\
  exists w,
    writes 2 (newSaver 2)
      [list_byte_of_string "ABC"; list_byte_of_string "DEFGHIJKLMNOP"] = Ok w /\
    Bytes w
    = Ok (take 2 (List.concat [list_byte_of_string "ABC";
                               list_byte_of_string "DEFGHIJKLMNOP"])
          ++ list_byte_of_string (newline ++ "... omitting ")
          ++ FormatInt
               (lenb (List.concat [list_byte_of_string "ABC";
                                   list_byte_of_string "DEFGHIJKLMNOP"])
                - 2 * 2)
          ++ list_byte_of_string (" bytes ..." ++ newline)
          ++ lastn 2 (List.concat [list_byte_of_string "ABC";
                                   list_byte_of_string "DEFGHIJKLMNOP"])).
Proof.
  split; [lia |]. split; [lia |].
  split; [vm_compute; reflexivity |]. split; [vm_compute; reflexivity |].
  apply (Bytes_of_long_stream 2
           [list_byte_of_string "ABC"; list_byte_of_string "DEFGHIJKLMNOP"] 2);
    [lia | lia | vm_compute; reflexivity | vm_compute; reflexivity].
Defined.

(** X5. [Bytes] depends on the bytes written, not on how they were split into
    [Write] calls: two sequences of writes with the same concatenation
    (shorter than [2^63] bytes) give the same [Bytes]. *)
Theorem Bytes_independent_of_chunking
    (n : Z) (ps qs : list bytes) (fuel : nat) :
  0 < n -> (2 <= fuel)%nat ->
  List.concat ps = List.concat qs -> lenb (List.concat ps) < 2 ^ 63 ->
  exists w v,
    writes fuel (newSaver n) ps = Ok w /\
    writes fuel (newSaver n) qs = Ok v /\
    Bytes w = Bytes v.
Proof.
  intros Hn Hfuel Heq Hb.
  destruct (writes_new fuel n ps Hn Hfuel) as (w & HW & HIw & HNw).
  destruct (writes_new fuel n qs Hn Hfuel) as (v & HV & HIv & HNv).
  exists w, v. split; [exact HW |]. split; [exact HV |].
  rewrite <- Heq in HIv.
  destruct (Bytes_Inv_closed _ _ HIw) as [Hw1 Hw2].
  destruct (Bytes_Inv_closed _ _ HIv) as [Hv1 Hv2].
  rewrite HNw in *. rewrite HNv in *.
  destruct (Z.le_gt_cases (lenb (List.concat ps)) (2 * n)) as [Hle | Hgt].
  - rewrite Hw1, Hv1 by exact Hle. reflexivity.
  - rewrite Hw2, Hv2 by lia. reflexivity.
Qed.

Lemma Bytes_independent_of_chunking_witness :
  0 < 2 /\ (2 <= 2)%nat /\
  List.concat [list_byte_of_string "ABCDEFG"]
    = List.concat [list_byte_of_string "A"; list_byte_of_string "BCD";
                   list_byte_of_string "E"; list_byte_of_string "FG"] /\
  lenb (List.concat [list_byte_of_string "ABCDEFG"]) < 2 ^ 63 /\
  exists w v,
    writes 2 (newSaver 2) [list_byte_of_string "ABCDEFG"] = Ok w /\
    writes 2 (newSaver 2)
      [list_byte_of_string "A"; list_byte_of_string "BCD";
       list_byte_of_string "E"; list_byte_of_string "FG"] = Ok v /\
    Bytes w = Bytes v.
Proof.
  split; [lia |]. split; [lia |].
  split; [reflexivity |]. split; [vm_compute; reflexivity |].
  apply (Bytes_independent_of_chunking 2
           [list_byte_of_string "ABCDEFG"]
           [list_byte_of_string "A"; list_byte_of_string "BCD";
            list_byte_of_string "E"; list_byte_of_string "FG"] 2);
    [lia | lia | reflexivity | vm_compute; reflexivity].
Defined.

Lemma Write_zero (fuel : nat) (sk : Z) (p : bytes) :
  Write fuel
    {| N := 0; prefix := None; suffix := None; suffixOff := 0; skipped := sk |} p
  = Ok ({| N := 0; prefix := None; suffix := None; suffixOff := 0;
           skipped := if 0 <? lenb p then int64 (sk + lenb p) else sk |},
        lenb p).
Proof.
  pose proof (lenb_nonneg p) as Hl0.
  unfold Write, fill. cbn [N prefix suffix suffixOff skipped].
  change (len None) with 0. change (0 - 0) with 0.
  change (0 <? 0) with false. cbn iota beta. rewrite Z.sub_0_r.
  destruct (0 <? lenb p) eqn:E.
  - replace (lenb p <? lenb p) with false by (symmetry; apply Z.ltb_irrefl).
    cbn [bind]. rewrite drop_all, overwrite_nil by lia. reflexivity.
  - apply Z.ltb_ge in E. assert (p = []) as -> by (apply lenb_zero; lia).
    cbn [bind]. rewrite overwrite_nil. reflexivity.
Qed.

Lemma writes_zero (fuel : nat) (ps : list bytes) :
  forall m : Z,
    exists sk,
      writes fuel
        {| N := 0; prefix := None; suffix := None; suffixOff := 0;
           skipped := int64 m |} ps
      = Ok {| N := 0; prefix := None; suffix := None; suffixOff := 0;
              skipped := sk |} /\
      sk = int64 (m + lenb (List.concat ps)).
Proof.
  induction ps as [| p ps IH]; intros m.
  - exists (int64 m). cbn [writes List.concat]. change (lenb []) with 0.
    now rewrite Z.add_0_r.
  - cbn [writes List.concat]. rewrite Write_zero. cbn [bind].
    rewrite lenb_app.
    assert (Hsk : (if 0 <? lenb p then int64 (int64 m + lenb p) else int64 m)
                  = int64 (m + lenb p)).
    { pose proof (lenb_nonneg p). destruct (0 <? lenb p) eqn:E.
      - apply int64_add.
      - apply Z.ltb_ge in E. f_equal. lia. }
    rewrite Hsk. destruct (IH (m + lenb p)) as (sk & HW & Hs).
    exists sk. split; [exact HW |]. rewrite Hs. f_equal. lia.
Qed.

(** X6. A saver of capacity 0 keeps nothing: every write returns, the prefix
    and the suffix stay nil, [skipped] counts all the bytes written (as an
    [int64]), and [Bytes] returns no bytes, without an omission marker,
    whatever was written. *)
Theorem zero_capacity_keeps_nothing (ps : list bytes) (fuel : nat) :
  exists w,
    writes fuel (newSaver 0) ps = Ok w /\
    prefix w = None /\ suffix w = None /\
    skipped w = int64 (lenb (List.concat ps)) /\
    Bytes w = Ok [].
Proof.
  destruct (writes_zero fuel ps 0) as (sk & HW & Hs).
  eexists. split; [exact HW |]. cbn. rewrite Hs. repeat split; reflexivity.
Qed.

(** X7. [fill] moves bytes from the front of [p] to the end of [dst] without
    losing or reordering any: the new [dst] followed by the returned rest is
    the old [dst] followed by [p]; the new [dst] holds [min(n, len(dst) +
    len(p))] bytes, so it never grows beyond [n], and a non-empty rest is
    returned only when [dst] has reached [n]. *)
Theorem fill_moves_what_fits (n : Z) (dst : slice) (p : bytes) :
  len dst <= n ->
  elems (fst (fill n dst p)) ++ snd (fill n dst p) = elems dst ++ p /\
  len (fst (fill n dst p)) = Z.min n (len dst + lenb p) /\
  (snd (fill n dst p) <> [] -> len (fst (fill n dst p)) = n).
Proof.
  intros Hle.
  pose proof (len_nonneg dst) as Hd0. pose proof (lenb_nonneg p) as Hp0.
  rewrite fill_rest by exact Hle.
  assert (Hlen : len (fst (fill n dst p)) = Z.min n (len dst + lenb p)).
  { unfold len at 1. rewrite fill_elems, lenb_app, lenb_take by lia.
    fold (len dst). lia. }
  split.
  { rewrite fill_elems by exact Hle. rewrite <- app_assoc, take_drop.
    reflexivity. }
  split; [exact Hlen |].
  intros Hne. rewrite Hlen.
  destruct (Z.le_gt_cases (lenb p) (n - len dst)) as [H | H]; [| lia].
  exfalso. apply Hne. apply drop_all. exact H.
Qed.

Lemma fill_moves_what_fits_witness :
  len (Some (list_byte_of_string "AB")) <= 4 /\
  elems (fst (fill 4 (Some (list_byte_of_string "AB"))
                (list_byte_of_string "CDEFG")))
    ++ snd (fill 4 (Some (list_byte_of_string "AB"))
              (list_byte_of_string "CDEFG"))
  = elems (Some (list_byte_of_string "AB")) ++ list_byte_of_string "CDEFG" /\
  len (fst (fill 4 (Some (list_byte_of_string "AB"))
              (list_byte_of_string "CDEFG")))
  = Z.min 4 (len (Some (list_byte_of_string "AB"))
             + lenb (list_byte_of_string "CDEFG")) /\
  (snd (fill 4 (Some (list_byte_of_string "AB"))
          (list_byte_of_string "CDEFG")) <> [] ->
   len (fst (fill 4 (Some (list_byte_of_string "AB"))
               (list_byte_of_string "CDEFG"))) = 4).
Proof.
  split; [vm_compute; discriminate |].
  apply (fill_moves_what_fits 4 (Some (list_byte_of_string "AB"))
           (list_byte_of_string "CDEFG")).
  vm_compute; discriminate.
Defined.

Lemma overwrite_frame (fuel : nat) :
  forall (w w' : prefixSuffixSaver) (p : bytes),
    overwrite fuel w p = Ok w' -> prefix w' = prefix w /\ N w' = N w.
Proof.
  induction fuel as [| fuel IH]; intros w w' p; cbn [overwrite].
  - destruct (0 <? lenb p); [discriminate |].
    intros H. injection H as <-. auto.
  - destruct (0 <? lenb p); [| intros H; injection H as <-; auto].
    destruct ((suffixOff w <? 0) || (len (suffix w) <? suffixOff w));
      [discriminate |].
    unfold copy_at. intros H. apply IH in H. cbn [prefix N] in H. exact H.
Qed.

(** X8. The prefix is append-only and frozen once full: a [Write] of [p] that
    returns leaves the capacity as it is and extends the prefix by the first
    [N - len(prefix)] bytes of [p]; with a full prefix it does not change
    it. *)
Theorem Write_only_extends_prefix
    (fuel : nat) (w w' : prefixSuffixSaver) (p : bytes) (k : Z) :
  len (prefix w) <= N w -> Write fuel w p = Ok (w', k) ->
  N w' = N w /\
  elems (prefix w') = elems (prefix w) ++ take (N w - len (prefix w)) p /\
  (len (prefix w) = N w -> prefix w' = prefix w).
Proof.
  intros Hle. unfold Write.
  pose proof (fill_elems (N w) (prefix w) p Hle) as Hel.
  assert (Hfull : len (prefix w) = N w ->
                  fst (fill (N w) (prefix w) p) = prefix w).
  { intros E. unfold fill. rewrite E, Z.sub_diag. reflexivity. }
  destruct (fill (N w) (prefix w) p) as [pre p1]. cbn [fst] in *.
  destruct (if 0 <? lenb p1 - N w
            then if lenb p1 <? lenb p1 - N w then Panic
                 else Ok (drop (lenb p1 - N w) p1,
                          int64 (skipped w + (lenb p1 - N w)))
            else Ok (p1, skipped w)) as [[p2 skp] | |]; cbn [bind];
    try discriminate.
  destruct (fill (N w) (suffix w) p2) as [suf p3].
  destruct (overwrite fuel _ p3) as [w1 | |] eqn:E; cbn [bind];
    try discriminate.
  intros H. injection H as <- _.
  apply overwrite_frame in E. cbn [prefix N] in E. destruct E as [Ep En].
  rewrite Ep, En. split; [reflexivity |]. split; [exact Hel | exact Hfull].
Qed.

Lemma Write_only_extends_prefix_witness :
  len (prefix (newSaver 4)) <= N (newSaver 4) /\
  Write 2 (newSaver 4) (list_byte_of_string "ABCDEFGHIJ")
  = Ok ({| N := 4; prefix := Some (list_byte_of_string "ABCD");
           suffix := Some (list_byte_of_string "GHIJ"); suffixOff := 0;
           skipped := 2 |}, 10) /\
  N {| N := 4; prefix := Some (list_byte_of_string "ABCD");
       suffix := Some (list_byte_of_string "GHIJ"); suffixOff := 0;
       skipped := 2 |} = N (newSaver 4) /\
  elems (prefix {| N := 4; prefix := Some (list_byte_of_string "ABCD");
                   suffix := Some (list_byte_of_string "GHIJ");
                   suffixOff := 0; skipped := 2 |})
  = elems (prefix (newSaver 4))
    ++ take (N (newSaver 4) - len (prefix (newSaver 4)))
         (list_byte_of_string "ABCDEFGHIJ") /\
  (len (prefix (newSaver 4)) = N (newSaver 4) ->
   prefix {| N := 4; prefix := Some (list_byte_of_string "ABCD");
             suffix := Some (list_byte_of_string "GHIJ"); suffixOff := 0;
             skipped := 2 |}
   = prefix (newSaver 4)).
Proof.
  split; [vm_compute; discriminate |]. split; [vm_compute; reflexivity |].
  apply (Write_only_extends_prefix 2 (newSaver 4)
           {| N := 4; prefix := Some (list_byte_of_string "ABCD");
              suffix := Some (list_byte_of_string "GHIJ"); suffixOff := 0;
              skipped := 2 |}
           (list_byte_of_string "ABCDEFGHIJ") 10);
    [vm_compute; discriminate | vm_compute; reflexivity].
Defined.

(** X18. Writing nothing changes nothing: on any saver whose capacity is not
    negative, [Write] of an empty slice returns 0 and leaves every field as it
    was (a nil prefix or suffix stays nil), whatever the iteration budget. *)
Theorem Write_of_nothing (fuel : nat) (w : prefixSuffixSaver) :
  0 <= N w -> Write fuel w [] = Ok (w, 0).
Proof.
  intros HN. unfold Write, fill, minInt. change (lenb []) with 0.
  assert (Hfill : forall d : slice,
            (if 0 <? N w - len d
             then (append d (take (if 0 <? N w - len d then 0 else N w - len d) []),
                   drop (if 0 <? N w - len d then 0 else N w - len d) [])
             else (d, [])) = (d, [])).
  { intros d. destruct (0 <? N w - len d); [| reflexivity].
    rewrite take_nil, drop_nil. reflexivity. }
  rewrite Hfill. change (lenb []) with 0.
  replace (0 <? 0 - N w) with false by (symmetry; apply Z.ltb_ge; lia).
  cbn [bind]. rewrite Hfill. rewrite overwrite_nil. cbn [bind].
  destruct w; reflexivity.
Qed.

Lemma Write_of_nothing_witness :
  0 <= N {| N := 4; prefix := Some (list_byte_of_string "ABCD");
            suffix := Some (list_byte_of_string "IJGH"); suffixOff := 2;
            skipped := 2 |} /\
  Write 0 {| N := 4; prefix := Some (list_byte_of_string "ABCD");
             suffix := Some (list_byte_of_string "IJGH"); suffixOff := 2;
             skipped := 2 |} []
  = Ok ({| N := 4; prefix := Some (list_byte_of_string "ABCD");
           suffix := Some (list_byte_of_string "IJGH"); suffixOff := 2;
           skipped := 2 |}, 0).
Proof.
  split; [vm_compute; discriminate |].
  apply (Write_of_nothing 0
           {| N := 4; prefix := Some (list_byte_of_string "ABCD");
              suffix := Some (list_byte_of_string "IJGH"); suffixOff := 2;
              skipped := 2 |}).
  vm_compute; discriminate.
Defined.

(** * Properties of the command wrapper *)

Section CmdProperties.
Context {os : OsExec}.

(** [Wait] touches the process, the store and [waitDone] only. *)
Lemma Wait_frame (fuel : nat) (w w' : World) (err : option error) :
  Wait fuel w = Ok (w', err) ->
  ctx w' = ctx w /\ cancel w' = cancel w /\ watchers w' = watchers w /\
  trace w' = trace w /\ waitDone w = false /\ waitDone w' = true.
Proof.
  unfold Wait. destruct (exec_Wait (proc (cmd w))) as [[p out] e].
  destruct (deliver fuel (cmd w) (mem w) out) as [h | |]; cbn [bind];
    try discriminate.
  cbn [waitDone set_mem set_proc].
  destruct (waitDone w) eqn:E; [discriminate |].
  intros H. injection H as <- <-. cbn. repeat split; auto.
Qed.

Lemma policy_calls_app (tr : list event) (e : event) :
  policy_calls (tr ++ [e])
  = (policy_calls tr + match e with CmdStart => 0 | _ => 1 end)%nat.
Proof.
  induction tr as [| x tr IH]; cbn.
  - destruct e; reflexivity.
  - destruct x; cbn; rewrite IH; lia.
Qed.

(** A [select] that takes a case uses up one blocked watcher; only the
    cancellation case calls the policy, once, and it needs a closed
    [ctx.Done()]. *)
Lemma watcher_spec (b : branch) (w w' : World) :
  watcher b w = Some w' ->
  (0 < watchers w)%nat /\ watchers w' = pred (watchers w) /\
  ctx w' = ctx w /\ can_proceed w b = true /\
  policy_calls (trace w')
  = (policy_calls (trace w)
     + match b with CaseCtxDone => 1 | CaseWaitDone => 0 end)%nat.
Proof.
  unfold watcher.
  destruct (0 <? watchers w)%nat eqn:E; cbn [andb]; [| discriminate].
  apply Nat.ltb_lt in E.
  destruct (can_proceed w b) eqn:Hc; [| discriminate].
  destruct b.
  - destruct (cancel w) as [f |]; intros H; injection H as <-;
      cbn [watchers ctx trace log set_proc set_watchers];
      rewrite policy_calls_app; repeat split; auto.
  - intros H. injection H as <-. cbn. repeat split; auto.
Qed.

Lemma step_spec (fuel : nat) (l : label) (w w' : World) :
  step fuel l w = Some w' ->
  (ctx w <> None -> ctx w' <> None) /\
  (watchers w' <= watchers w)%nat /\
  (policy_calls (trace w') + watchers w'
   <= policy_calls (trace w) + watchers w)%nat /\
  (policy_calls (trace w) <= policy_calls (trace w'))%nat /\
  (policy_calls (trace w') <> policy_calls (trace w) ->
   selects CaseCtxDone l = true /\ ctx w' <> None) /\
  (selects CaseWaitDone l = true ->
   (0 < watchers w)%nat /\ watchers w' = pred (watchers w) /\
   policy_calls (trace w') = policy_calls (trace w)).
Proof.
  destruct l as [e | | b]; cbn [step].
  - destruct (ctx w) eqn:E; [discriminate |].
    intros H. injection H as <-. cbn.
    repeat split; try lia; try congruence; try discriminate.
  - destruct (Wait fuel w) as [[w1 err] | |] eqn:E; try discriminate.
    intros H. injection H as <-.
    destruct (Wait_frame _ _ _ _ E) as (Hc & _ & Hw & Ht & _).
    rewrite Hc, Hw, Ht. cbn.
    repeat split; try lia; try congruence; try discriminate.
  - intros H. destruct (watcher_spec _ _ _ H) as (Hpos & Hw & Hc & Hp & Ht).
    rewrite Hc, Hw, Ht.
    destruct b; cbn in *.
    + repeat split; try lia; try congruence; try discriminate.
      destruct (ctx w); [discriminate | discriminate].
    + repeat split; try lia; try congruence.
Qed.

Lemma exec_spec (fuel : nat) (ls : list label) :
  forall w wf : World,
    exec fuel ls w = Some wf ->
    (ctx w <> None -> ctx wf <> None) /\
    (watchers wf <= watchers w)%nat /\
    (policy_calls (trace wf) + watchers wf
     <= policy_calls (trace w) + watchers w)%nat /\
    (policy_calls (trace w) <= policy_calls (trace wf))%nat /\
    (policy_calls (trace wf) <> policy_calls (trace w) ->
     existsb (selects CaseCtxDone) ls = true /\ ctx wf <> None) /\
    (watchers w = 1%nat -> policy_calls (trace w) = 0%nat ->
     existsb (selects CaseWaitDone) ls = true ->
     policy_calls (trace wf) = 0%nat).
Proof.
  induction ls as [| l ls IH]; intros w wf; cbn [exec existsb].
  - intros H. injection H as <-.
    repeat split; try lia; try congruence; try discriminate.
  - destruct (step fuel l w) as [w1 |] eqn:E; [| discriminate].
    intros H.
    destruct (step_spec _ _ _ _ E) as (Hc1 & Hw1 & Hpot1 & Hmono1 & Hch1 & Hwd1).
    destruct (IH _ _ H) as (Hc2 & Hw2 & Hpot2 & Hmono2 & Hch2 & Hwd2).
    split; [tauto |]. split; [lia |]. split; [lia |]. split; [lia |].
    split.
    + intros Hne.
      destruct (Nat.eq_dec (policy_calls (trace wf)) (policy_calls (trace w1)))
        as [Eq | Ne].
      * rewrite Eq in Hne. destruct (Hch1 Hne) as [Hs Hctx].
        rewrite Hs. cbn [orb]. split; [reflexivity | now apply Hc2].
      * destruct (Hch2 Ne) as [Hs Hctx]. rewrite Hs, orb_true_r. auto.
    + intros Hone Hzero Hex.
      destruct (selects CaseWaitDone l) eqn:Hsel; cbn [orb] in Hex.
      * destruct (Hwd1 eq_refl) as (_ & Hw' & Ht'). lia.
      * destruct (Nat.eq_dec (watchers w1) 1) as [E1 | E1].
        -- apply Hwd2; [exact E1 | lia | exact Hex].
        -- (* the watcher is gone: no select can follow *)
           assert (Hw0 : watchers w1 = 0%nat) by lia.
           clear - H Hex Hw0 IH.
           exfalso. revert w1 wf H Hw0 Hex. clear IH.
           induction ls as [| l' ls' IH']; intros w1 wf H Hw0 Hex;
             cbn [exec existsb] in *; [discriminate |].
           destruct (step fuel l' w1) as [w2 |] eqn:E2; [| discriminate].
           destruct (step_spec _ _ _ _ E2) as (_ & Hw2 & _ & _ & _ & Hwd).
           destruct (selects CaseWaitDone l') eqn:Hsel'; cbn [orb] in Hex.
           ++ destruct (Hwd eq_refl) as (Hpos & _). lia.
           ++ apply (IH' w2 wf H); [lia | exact Hex].
Qed.

Lemma Start_ok_spec (c : Context) (e : exec_Cmd) (f : option Func) (h : heap)
    (w1 : World) :
  Start (FromCmd c e f h) = (w1, None) ->
  watchers w1 = 1%nat /\ policy_calls (trace w1) = 0%nat /\ ctx w1 = None.
Proof.
  unfold Start, FromCmd. cbn [ctx cmd].
  destruct c as [x |]; [discriminate |].
  destruct (exec_Start (Stdout e) (Stderr e) (proc e)) as [p [err |]];
    [discriminate |].
  intros H. injection H as <-. cbn. auto.
Qed.

(** C1 (the code does otherwise). When the context is done already [Start]
    returns [ctx.Err()], a non-nil error, and [Run] returns nil. *)
Theorem Run_returns_nil_when_Start_fails (fuel : nat) (x : ctxErr)
    (e : exec_Cmd) (f : option Func) (h : heap) :
  Start (FromCmd (Some x) e f h)
    = (FromCmd (Some x) e f h, Some (ContextErr x)) /\
  Run fuel (FromCmd (Some x) e f h) = Ok (FromCmd (Some x) e f h, None).
Proof. split; reflexivity. Qed.

(** C2. When the context is done before [Start] is called, [Start] returns
    [ctx.Err()] and changes nothing: [cmd.Start()] is not called, the command
    and its process are as before, and no watcher is spawned. *)
Theorem Start_after_cancellation (w : World) (x : ctxErr) :
  ctx w = Some x -> Start w = (w, Some (ContextErr x)).
Proof. intros H. unfold Start. rewrite H. reflexivity. Qed.

(** C3 (as amended). In every execution that follows a successful [Start], the
    termination policy (the cancel function, or [Kill] when it is nil) is
    invoked at most once; it is not invoked in an execution where the
    watcher's [select] takes the [waitDone] case, nor while the context is not
    done; and when it is invoked the [select] took the [ctx.Done()] case. *)
Theorem policy_at_most_once_and_only_on_cancel_case
    (fuel : nat) (c : Context) (e : exec_Cmd) (f : option Func) (h : heap)
    (ls : list label) (w1 wf : World) :
  Start (FromCmd c e f h) = (w1, None) ->
  exec fuel ls w1 = Some wf ->
  (policy_calls (trace wf) <= 1)%nat /\
  (existsb (selects CaseWaitDone) ls = true -> policy_calls (trace wf) = 0%nat) /\
  (ctx wf = None -> policy_calls (trace wf) = 0%nat) /\
  (policy_calls (trace wf) = 1%nat -> existsb (selects CaseCtxDone) ls = true).
Proof.
  intros HS HE.
  destruct (Start_ok_spec _ _ _ _ _ HS) as (Hw & Ht & Hc).
  destruct (exec_spec _ _ _ _ HE) as (_ & _ & Hpot & _ & Hch & Hwd).
  split; [lia |]. split; [now apply Hwd |]. split.
  - intros Hnone.
    destruct (Nat.eq_dec (policy_calls (trace wf)) 0) as [E | E]; [exact E |].
    destruct Hch as [_ Hctx]; [lia | contradiction].
  - intros Hone. apply Hch. lia.
Qed.

(** C8. When [Stdout] or [Stderr] of the command is set, [CombinedOutput]
    returns no bytes and an "already set" error and changes nothing
    ([cmd.Start()] is not called, the attachments stay), so a second call
    fails the same way. *)
Theorem CombinedOutput_when_stream_set (fuel : nat) (w : World) :
  Stdout (cmd w) <> None \/ Stderr (cmd w) <> None ->
  exists err,
    already_set err /\
    CombinedOutput fuel w = Ok (w, ([], Some err)) /\
    (r <- CombinedOutput fuel w ;; CombinedOutput fuel (fst r))
      = Ok (w, ([], Some err)).
Proof.
  intros H. unfold CombinedOutput, already_set.
  destruct (Stdout (cmd w)) as [q |] eqn:Eo.
  - eexists. split; [left; reflexivity |]. split; [reflexivity |].
    cbn [bind fst]. rewrite Eo. reflexivity.
  - destruct (Stderr (cmd w)) as [q |] eqn:Ee.
    + eexists. split; [right; reflexivity |]. split; [reflexivity |].
      cbn [bind fst]. rewrite Eo, Ee. reflexivity.
    + destruct H; congruence.
Qed.

(** C10. [Output] does not consult its [ctx] argument: for any two arguments,
    nil or not, done or not, it returns the same result and leaves the same
    world. *)
Theorem Output_ignores_its_argument (fuel : nat) (c1 c2 : option Context)
    (w : World) :
  Output fuel c1 w = Output fuel c2 w.
Proof. reflexivity. Qed.

End CmdProperties.

(** The model on a process that writes "out", "err", "more" and exits with
    status 1: [CombinedOutput] collects both streams in one buffer, [Output]
    collects stdout and attaches the saved stderr to the exit error. *)
Example CombinedOutput_chatty :
  exists w,
    CombinedOutput 2 chatty_world
    = Ok (w, (list_byte_of_string "outerrmore", Some (ExitError 1 []))).
Proof. eexists. vm_compute. reflexivity. Qed.

Example Output_chatty :
  exists w,
    Output 2 None chatty_world
    = Ok (w, (list_byte_of_string "outmore",
              Some (ExitError 1 (list_byte_of_string "err")))).
Proof. eexists. vm_compute. reflexivity. Qed.

Lemma Start_after_cancellation_witness :
  ctx (quiet_world (Some Canceled) None) = Some Canceled /\
  Start (quiet_world (Some Canceled) None)
    = (quiet_world (Some Canceled) None, Some (ContextErr Canceled)).
Proof.
  split; [reflexivity |].
  apply (@Start_after_cancellation quiet_process). reflexivity.
Defined.

Lemma policy_at_most_once_and_only_on_cancel_case_witness :
  Start (quiet_world None (Some 7%nat))
    = (set_watchers (log (quiet_world None (Some 7%nat)) CmdStart) 1, None) /\
  exec 2 [EnvCancel Canceled; Select CaseCtxDone; CallWait]
    (set_watchers (log (quiet_world None (Some 7%nat)) CmdStart) 1)
    = Some (@mkWorld quiet_process (Some Canceled) (Some 7%nat) quiet_cmd true
              [] 0 [CmdStart; @Cancel quiet_process 7%nat]) /\
  (@policy_calls quiet_process [CmdStart; @Cancel quiet_process 7%nat] <= 1)%nat /\
  (existsb (selects CaseWaitDone)
     [EnvCancel Canceled; Select CaseCtxDone; CallWait] = true ->
   @policy_calls quiet_process [CmdStart; @Cancel quiet_process 7%nat] = 0%nat) /\
  (Some Canceled = None ->
   @policy_calls quiet_process [CmdStart; @Cancel quiet_process 7%nat] = 0%nat) /\
  (@policy_calls quiet_process [CmdStart; @Cancel quiet_process 7%nat] = 1%nat ->
   existsb (selects CaseCtxDone)
     [EnvCancel Canceled; Select CaseCtxDone; CallWait] = true).
Proof.
  split; [reflexivity |]. split; [reflexivity |].
  apply (@policy_at_most_once_and_only_on_cancel_case quiet_process 2
           None quiet_cmd (Some 7%nat) []
           [EnvCancel Canceled; Select CaseCtxDone; CallWait]
           (set_watchers (log (quiet_world None (Some 7%nat)) CmdStart) 1)
           (@mkWorld quiet_process (Some Canceled) (Some 7%nat) quiet_cmd true
              [] 0 [CmdStart; @Cancel quiet_process 7%nat]));
    reflexivity.
Defined.

(** C3 (as stated, refuted). [Wait] returns and closes [waitDone], then the
    context is cancelled, then the watcher's [select], with both channels
    closed, takes the [ctx.Done()] case: the policy ([Kill], as the cancel
    function is nil) runs although [waitDone] was closed before the
    cancellation was seen, and even before it was fired. *)
Lemma policy_runs_after_wait_completed :
  exists w1 wf : @World quiet_process,
    Start (quiet_world None None) = (w1, None) /\
    exec 2 [CallWait; EnvCancel Canceled; Select CaseCtxDone] w1 = Some wf /\
    wait_before_cancel_seen [CallWait; EnvCancel Canceled; Select CaseCtxDone]
      = true /\
    policy_calls (trace wf) = 1%nat /\
    trace wf = [CmdStart; Kill].
Proof.
  eexists. eexists.
  split; [reflexivity |]. split; [reflexivity |].
  split; [reflexivity |]. split; reflexivity.
Qed.

Lemma CombinedOutput_when_stream_set_witness :
  (Stdout (cmd bound_world) <> None \/ Stderr (cmd bound_world) <> None) /\
  exists err,
    already_set err /\
    CombinedOutput 2 bound_world = Ok (bound_world, ([], Some err)) /\
    (r <- CombinedOutput 2 bound_world ;; CombinedOutput 2 (fst r))
    = Ok (bound_world, ([], Some err)).
Proof.
  split; [left; discriminate |].
  apply (@CombinedOutput_when_stream_set quiet_process 2 bound_world).
  left. discriminate.
Defined.

(** * Further properties of the command wrapper *)

Section CmdFurther.
Context {os : OsExec}.

(** [Start] touches the process, the log and the watchers only. *)
Lemma Start_frame (w w' : World) (err : option error) :
  Start w = (w', err) ->
  ctx w' = ctx w /\ cancel w' = cancel w /\
  Stdout (cmd w') = Stdout (cmd w) /\ Stderr (cmd w') = Stderr (cmd w) /\
  mem w' = mem w /\ waitDone w' = waitDone w.
Proof.
  unfold Start. destruct (ctx w) as [x |] eqn:Ec.
  - intros H. injection H as <- <-. repeat split; auto.
  - destruct (exec_Start (Stdout (cmd w)) (Stderr (cmd w)) (proc (cmd w)))
      as [p [e |]];
      intros H; injection H as <- <-; cbn; repeat split; auto.
Qed.

Lemma Wait_keeps_writers (fuel : nat) (w w' : World) (err : option error) :
  Wait fuel w = Ok (w', err) ->
  Stdout (cmd w') = Stdout (cmd w) /\ Stderr (cmd w') = Stderr (cmd w).
Proof.
  unfold Wait. destruct (exec_Wait (proc (cmd w))) as [[p out] e].
  destruct (deliver fuel (cmd w) (mem w) out) as [h | |]; cbn [bind];
    try discriminate.
  cbn [waitDone set_mem set_proc].
  destruct (waitDone w); [discriminate |].
  intros H. injection H as <- <-. cbn. auto.
Qed.

Lemma Run_keeps_writers (fuel : nat) (w w' : World) (err : option error) :
  Run fuel w = Ok (w', err) ->
  Stdout (cmd w') = Stdout (cmd w) /\ Stderr (cmd w') = Stderr (cmd w).
Proof.
  unfold Run. destruct (Start w) as [w1 e1] eqn:ES.
  destruct (Start_frame _ _ _ ES) as (_ & _ & Ho & He & _).
  destruct e1 as [e |].
  - intros H. injection H as <- <-. auto.
  - intros H. destruct (Wait_keeps_writers _ _ _ _ H) as [Ho' He'].
    split; congruence.
Qed.

(** X9. [Wait] can be called once: after a [Wait] that returned, [waitDone] is
    closed, and another [Wait] on the same [Cmd] does not return (its
    [close(c.waitDone)] panics). *)
Theorem second_Wait_does_not_return
    (fuel : nat) (w w' : World) (err : option error) :
  Wait fuel w = Ok (w', err) ->
  waitDone w' = true /\ forall r, Wait fuel w' <> Ok r.
Proof.
  intros H. destruct (Wait_frame _ _ _ _ H) as (_ & _ & _ & _ & _ & Hd).
  split; [exact Hd |]. intros [w'' e] H2.
  destruct (Wait_frame _ _ _ _ H2) as (_ & _ & _ & _ & Hopen & _).
  congruence.
Qed.


(** X10. [Start] spawns a watcher exactly when it returns nil: on success the
    context was not done, [cmd.Start()] was called once and one more watcher
    waits in its [select]; when [Start] returns an error no watcher is added.
    [waitDone] is left as it is either way. *)
Theorem Start_spawns_watcher_iff_nil (w w' : World) (err : option error) :
  Start w = (w', err) ->
  (err = None ->
   ctx w = None /\ trace w' = trace w ++ [CmdStart] /\
   watchers w' = S (watchers w)) /\
  (err <> None -> watchers w' = watchers w) /\
  waitDone w' = waitDone w.
Proof.
  unfold Start. destruct (ctx w) as [x |] eqn:Ec.
  - intros H. injection H as <- <-.
    split; [discriminate |]. split; reflexivity.
  - destruct (exec_Start (Stdout (cmd w)) (Stderr (cmd w)) (proc (cmd w)))
      as [p [e |]];
      intros H; injection H as <- <-; cbn.
    + split; [discriminate |]. split; reflexivity.
    + split; [auto |]. split; [congruence | reflexivity].
Qed.


(** X12. [CombinedOutput] works at most once on a [Cmd]: after a call that
    returned, [Stdout] or [Stderr] is set, so the next call returns an
    "already set" error and changes nothing. *)
Theorem CombinedOutput_is_single_use
    (fuel : nat) (w w' : World) (r : bytes * option error) :
  CombinedOutput fuel w = Ok (w', r) ->
  exists err,
    already_set err /\ CombinedOutput fuel w' = Ok (w', ([], Some err)).
Proof.
  unfold CombinedOutput at 1.
  destruct (Stdout (cmd w)) as [q |] eqn:Eo.
  - intros H. injection H as <- _. eexists. split; [left; reflexivity |].
    unfold CombinedOutput. rewrite Eo. reflexivity.
  - destruct (Stderr (cmd w)) as [q |] eqn:Ee.
    + intros H. injection H as <- _. eexists. split; [right; reflexivity |].
      unfold CombinedOutput. rewrite Eo, Ee. reflexivity.
    + cbn [alloc].
      match goal with
      | |- context [Run fuel ?x] =>
          destruct (Run fuel x) as [[w2 err] | |] eqn:ER
      end; cbn [bind]; try discriminate.
      intros H. injection H as <- _.
      destruct (Run_keeps_writers _ _ _ _ ER) as [Ho _]. cbn in Ho.
      eexists. split; [left; reflexivity |].
      unfold CombinedOutput. rewrite Ho. reflexivity.
Qed.

(** X13. [Output] works at most once on a [Cmd]: after a call that returned,
    [Stdout] is set, so every later [Output], whatever its argument, and every
    later [CombinedOutput] returns "exec: Stdout already set" and changes
    nothing. *)
Theorem Output_is_single_use
    (fuel : nat) (c : option Context) (w w' : World)
    (r : bytes * option error) :
  Output fuel c w = Ok (w', r) ->
  (forall c', Output fuel c' w'
              = Ok (w', ([], Some (errors_New "exec: Stdout already set")))) /\
  CombinedOutput fuel w'
  = Ok (w', ([], Some (errors_New "exec: Stdout already set"))).
Proof.
  intros H.
  assert (Hset : exists q, Stdout (cmd w') = Some q).
  { revert H. unfold Output.
    destruct (Stdout (cmd w)) as [q |] eqn:Eo.
    - intros H. injection H as <- _. eauto.
    - cbn [alloc].
      match goal with
      | |- context [Run fuel ?x] =>
          destruct (Run fuel x) as [[w3 err] | |] eqn:ER
      end; cbn [bind]; try discriminate.
      destruct (Run_keeps_writers _ _ _ _ ER) as [Ho _].
      match goal with
      | |- context [bind ?m _] => destruct m as [err' | |]
      end; cbn [bind]; try discriminate.
      intros H. injection H as <- _.
      cbn in Ho. destruct (Stderr (cmd w)); cbn in Ho; eauto. }
  destruct Hset as [q Hq].
  unfold Output, CombinedOutput. rewrite Hq. auto.
Qed.

Lemma watcher_trace (b : branch) (w w' : World) :
  watcher b w = Some w' ->
  cancel w' = cancel w /\ (0 < watchers w)%nat /\
  watchers w' = pred (watchers w) /\
  trace w'
  = trace w ++ match b with
               | CaseCtxDone => [policy_event (cancel w)]
               | CaseWaitDone => []
               end.
Proof.
  unfold watcher.
  destruct (0 <? watchers w)%nat eqn:E; cbn [andb]; [| discriminate].
  apply Nat.ltb_lt in E.
  destruct (can_proceed w b); [| discriminate].
  destruct b.
  - destruct (cancel w) as [g |] eqn:Ec; intros H; injection H as <-; cbn;
      rewrite ?Ec; repeat split; auto.
  - intros H. injection H as <-. cbn. rewrite app_nil_r. repeat split; auto.
Qed.

Lemma step_trace (fuel : nat) (l : label) (w w' : World) :
  step fuel l w = Some w' ->
  cancel w' = cancel w /\
  ((trace w' = trace w /\ (watchers w' <= watchers w)%nat) \/
   ((0 < watchers w)%nat /\ watchers w' = pred (watchers w) /\
    trace w' = trace w ++ [policy_event (cancel w)])).
Proof.
  destruct l as [x | | b]; cbn [step].
  - destruct (ctx w); [discriminate |].
    intros H. injection H as <-. cbn. auto.
  - destruct (Wait fuel w) as [[w1 err] | |] eqn:E; try discriminate.
    intros H. injection H as <-.
    destruct (Wait_frame _ _ _ _ E) as (_ & Hc & Hw & Ht & _).
    split; [exact Hc |]. left. split; [exact Ht | lia].
  - intros H. destruct (watcher_trace _ _ _ H) as (Hc & Hpos & Hw & Ht).
    split; [exact Hc |]. destruct b.
    + right. auto.
    + left. rewrite app_nil_r in Ht. split; [exact Ht | lia].
Qed.

Lemma exec_trace (fuel : nat) (f : option Func) (ls : list label) :
  forall w wf : World,
    exec fuel ls w = Some wf ->
    cancel w = f ->
    ((watchers w <= 1)%nat /\ trace w = [CmdStart]) \/
    (watchers w = 0%nat /\ trace w = [CmdStart; policy_event f]) ->
    trace wf = [CmdStart] \/ trace wf = [CmdStart; policy_event f].
Proof.
  induction ls as [| l ls IH]; intros w wf; cbn [exec].
  - intros H Hc HJ. injection H as <-. destruct HJ as [[_ H] | [_ H]]; auto.
  - destruct (step fuel l w) as [w1 |] eqn:E; [| discriminate].
    intros H Hc HJ.
    destruct (step_trace _ _ _ _ E) as (Hc1 & Hs).
    apply (IH w1 wf H); [congruence |].
    destruct HJ as [[Hw Ht] | [Hw Ht]];
      destruct Hs as [[Ht1 Hw1] | (Hpos & Hw1 & Ht1)].
    + left. split; [lia | congruence].
    + right. split; [lia |]. rewrite Ht1, Ht, Hc. reflexivity.
    + right. split; [lia | congruence].
    + lia.
Qed.

(** X14. The watcher applies the policy chosen at [FromCmd], and only that:
    in every execution that follows a successful [Start], what has been done
    to the process is [cmd.Start()] alone, or [cmd.Start()] followed by one
    [Kill] when the cancel function is nil, by one call of the cancel function
    otherwise; with a cancel function the watcher never calls [Kill]
    itself. *)
Theorem watcher_applies_the_chosen_policy
    (fuel : nat) (c : Context) (e : exec_Cmd) (f : option Func) (h : heap)
    (ls : list label) (w1 wf : World) :
  Start (FromCmd c e f h) = (w1, None) ->
  exec fuel ls w1 = Some wf ->
  (trace wf = [CmdStart] \/ trace wf = [CmdStart; policy_event f]) /\
  (f <> None -> ~ In Kill (trace wf)).
Proof.
  intros HS HE.
  assert (H1 : cancel w1 = f /\ watchers w1 = 1%nat /\ trace w1 = [CmdStart]).
  { revert HS. unfold Start, FromCmd. cbn [ctx cmd].
    destruct c as [x |]; [discriminate |].
    destruct (exec_Start (Stdout e) (Stderr e) (proc e)) as [p [err |]];
      [discriminate |].
    intros H. injection H as <-. cbn. auto. }
  destruct H1 as (Hc & Hw & Ht).
  assert (HT : trace wf = [CmdStart] \/ trace wf = [CmdStart; policy_event f]).
  { apply (exec_trace fuel f ls w1 wf HE Hc). left. split; [lia | exact Ht]. }
  split; [exact HT |].
  intros Hf Hin. destruct HT as [HT | HT]; rewrite HT in Hin; cbn in Hin.
  - destruct Hin as [H | []]; discriminate.
  - destruct f as [g |]; [| congruence]. cbn in Hin.
    destruct Hin as [H | [H | []]]; discriminate.
Qed.

(** ** Output of the process in the attached writers *)

Lemma nth_error_at_end (h0 : heap) (x : object) (tl : heap) :
  nth_error (h0 ++ x :: tl) (List.length h0) = Some x.
Proof.
  rewrite nth_error_app2 by lia. rewrite Nat.sub_diag. reflexivity.
Qed.

Lemma store_at_end (h0 : heap) (x y : object) (tl : heap) :
  store (h0 ++ x :: tl) (List.length h0) y = h0 ++ y :: tl.
Proof. induction h0 as [| z h0 IH]; cbn; congruence. Qed.

Lemma nth_error_second (h0 : heap) (a b : object) :
  nth_error (h0 ++ [a; b]) (S (List.length h0)) = Some b.
Proof.
  rewrite nth_error_app2 by lia.
  replace (S (List.length h0) - List.length h0)%nat with 1%nat by lia.
  reflexivity.
Qed.

Lemma store_second (h0 : heap) (a b y : object) :
  store (h0 ++ [a; b]) (S (List.length h0)) y = h0 ++ [a; y].
Proof. induction h0 as [| z h0 IH]; cbn; congruence. Qed.

Lemma nth_error_below (h0 tl : heap) (q : ptr) (x : object) :
  nth_error h0 q = Some x -> nth_error (h0 ++ tl) q = Some x.
Proof.
  intros H. rewrite nth_error_app1; [exact H |].
  apply nth_error_Some. congruence.
Qed.

(** One buffer attached to both streams receives every chunk, in the order
    written. *)
Lemma deliver_combined (fuel : nat) (e : exec_Cmd) (h0 : heap)
    (out : list (Stream * bytes)) :
  Stdout e = Some (List.length h0) -> Stderr e = Some (List.length h0) ->
  forall c,
    deliver fuel e (h0 ++ [Buffer c]) out
    = Ok (h0 ++ [Buffer (c ++ List.concat (map snd out))]).
Proof.
  intros Ho He. induction out as [| [s b] out IH]; intros c;
    cbn [deliver map List.concat snd].
  - now rewrite app_nil_r.
  - destruct s; rewrite ?Ho, ?He; unfold writer_Write;
      rewrite nth_error_at_end; cbn [bind];
      rewrite store_at_end, IH, <- app_assoc; reflexivity.
Qed.

(** A buffer on stdout and a saver on stderr: the buffer receives the stdout
    chunks, the saver is written the stderr chunks. *)
Lemma deliver_captured (fuel : nat) (e : exec_Cmd) (h0 : heap)
    (out : list (Stream * bytes)) :
  Stdout e = Some (List.length h0) -> Stderr e = Some (S (List.length h0)) ->
  forall c sv sv',
    writes fuel sv (chunks_of ToStderr out) = Ok sv' ->
    deliver fuel e (h0 ++ [Buffer c; Saver sv]) out
    = Ok (h0 ++ [Buffer (c ++ List.concat (chunks_of ToStdout out)); Saver sv']).
Proof.
  intros Ho He. induction out as [| [s b] out IH]; intros c sv sv';
    cbn [deliver chunks_of List.concat writes].
  - intros H. injection H as <-. now rewrite app_nil_r.
  - destruct s; rewrite ?Ho, ?He; unfold writer_Write.
    + intros H. rewrite nth_error_at_end. cbn [bind].
      rewrite store_at_end, (IH _ _ _ H), <- app_assoc. reflexivity.
    + cbn [writes]. rewrite nth_error_second.
      destruct (Write fuel sv b) as [[sv1 k] | |]; cbn [bind];
        try discriminate.
      intros H. rewrite store_second. apply (IH _ _ _ H).
Qed.

(** A buffer on stdout and a writer of the caller on stderr. *)
Lemma deliver_foreign (fuel : nat) (e : exec_Cmd) (h0 : heap) (q : ptr)
    (out : list (Stream * bytes)) :
  Stdout e = Some (List.length h0) -> Stderr e = Some q ->
  nth_error h0 q = Some Foreign ->
  forall c,
    deliver fuel e (h0 ++ [Buffer c]) out
    = Ok (h0 ++ [Buffer (c ++ List.concat (chunks_of ToStdout out))]).
Proof.
  intros Ho He Hq. induction out as [| [s b] out IH]; intros c;
    cbn [deliver chunks_of List.concat].
  - now rewrite app_nil_r.
  - destruct s; rewrite ?Ho, ?He; unfold writer_Write.
    + rewrite nth_error_at_end. cbn [bind].
      rewrite store_at_end, IH, <- app_assoc. reflexivity.
    + rewrite (nth_error_below _ _ _ _ Hq). cbn [bind]. apply IH.
Qed.

Ltac wsimpl :=
  cbn [ctx cancel cmd waitDone mem watchers trace Stdout Stderr proc
       set_proc set_Stdout set_Stderr set_mem set_ctx close_waitDone
       set_watchers log alloc fst snd].

(** X15. On a [Cmd] with no writer attached, a context that is not done and
    a process that starts, [CombinedOutput] returns every chunk the process
    wrote, stdout and stderr interleaved in the order written, together with
    the error of [cmd.Wait()] as it is; [waitDone] is closed afterwards. *)
Theorem CombinedOutput_collects_both_streams
    (fuel : nat) (w : World) (p1 p2 : Proc) (out : list (Stream * bytes))
    (err : option error) :
  ctx w = None -> waitDone w = false ->
  Stdout (cmd w) = None -> Stderr (cmd w) = None ->
  exec_Start (Some (List.length (mem w))) (Some (List.length (mem w)))
    (proc (cmd w)) = (p1, None) ->
  exec_Wait p1 = (p2, out, err) ->
  exists w',
    CombinedOutput fuel w = Ok (w', (List.concat (map snd out), err)) /\
    waitDone w' = true.
Proof.
  intros Hc Hd Ho He HS HW.
  unfold CombinedOutput. rewrite Ho, He. wsimpl.
  unfold Run, Start. wsimpl. unfold ptr in *. rewrite Hc, HS. wsimpl.
  unfold Wait. wsimpl. rewrite HW.
  rewrite deliver_combined by reflexivity. cbn [bind]. wsimpl.
  rewrite Hd. cbn [bind]. wsimpl.
  unfold buffer_Bytes. rewrite nth_error_at_end.
  eexists. split; reflexivity.
Qed.

(** X16. On a [Cmd] with no writer attached, a context that is not done and
    a process that starts, [Output] returns the stdout chunks of the process
    in order; stderr goes to a saver of capacity 32768, and when
    [cmd.Wait()] returns an [*exec.ExitError] its [Stderr] field is set to
    the [Bytes] of that saver, which is the whole stderr output when that is
    at most 65536 bytes; any other error, or nil, is returned as it is. *)
Theorem Output_captures_stdout_and_saves_stderr
    (fuel : nat) (c : option Context) (w : World) (p1 p2 : Proc)
    (out : list (Stream * bytes)) (err : option error) :
  (2 <= fuel)%nat ->
  ctx w = None -> waitDone w = false ->
  Stdout (cmd w) = None -> Stderr (cmd w) = None ->
  exec_Start (Some (List.length (mem w))) (Some (S (List.length (mem w))))
    (proc (cmd w)) = (p1, None) ->
  exec_Wait p1 = (p2, out, err) ->
  exists w' b,
    Output fuel c w
    = Ok (w', (List.concat (chunks_of ToStdout out), with_Stderr err b)) /\
    (sv <- writes fuel (newSaver 32768) (chunks_of ToStderr out) ;; Bytes sv)
    = Ok b /\
    (lenb (List.concat (chunks_of ToStderr out)) <= 65536 ->
     b = List.concat (chunks_of ToStderr out)).
Proof.
  intros Hfuel Hc Hd Ho He HS HW.
  destruct (writes_new fuel 32768 (chunks_of ToStderr out) eq_refl Hfuel)
    as (sv' & Hsv & HI & HN).
  destruct (Bytes_Inv_returns _ _ HI) as (b & Hb).
  unfold Output. rewrite Ho. wsimpl. rewrite He. wsimpl.
  change (Z.shiftl 32 10) with 32768.
  rewrite length_app. cbn [List.length]. rewrite Nat.add_1_r.
  rewrite <- app_assoc. cbn [app].
  unfold Run, Start. wsimpl. unfold ptr in *. rewrite Hc, HS. wsimpl.
  unfold Wait. wsimpl. rewrite HW.
  rewrite (deliver_captured fuel
             {| Stdout := Some (List.length (mem w));
                Stderr := Some (S (List.length (mem w))); proc := p1 |}
             (mem w) out eq_refl eq_refl _ _ _ Hsv).
  cbn [bind]. wsimpl. rewrite Hd. cbn [bind]. wsimpl.
  unfold buffer_Bytes. rewrite nth_error_at_end, nth_error_second.
  exists {| ctx := ctx w; cancel := cancel w;
            cmd := {| Stdout := Some (List.length (mem w));
                      Stderr := Some (S (List.length (mem w)));
                      proc := p2 |};
            waitDone := true;
            mem := mem w ++ [Buffer ([] ++ List.concat (chunks_of ToStdout out));
                             Saver sv'];
            watchers := S (watchers w);
            trace := trace w ++ [CmdStart] |}, b.
  split.
  - destruct err as [[msg | x | status old | msg] |]; cbn [bind with_Stderr];
      rewrite ?Hb; reflexivity.
  - split; [rewrite Hsv; cbn [bind]; exact Hb |].
    intros Hle. destruct (Bytes_Inv_closed _ _ HI) as [Hclosed _].
    rewrite HN in Hclosed. rewrite Hclosed in Hb by lia. congruence.
Qed.

(** X17. [Output] leaves a [Stderr] attached by the caller in place: no saver
    is created, the stdout chunks are returned, and the error of
    [cmd.Wait()], an [*exec.ExitError] included, is returned with its fields
    as they are. *)
Theorem Output_keeps_the_callers_Stderr
    (fuel : nat) (c : option Context) (w : World) (q : ptr) (p1 p2 : Proc)
    (out : list (Stream * bytes)) (err : option error) :
  ctx w = None -> waitDone w = false ->
  Stdout (cmd w) = None -> Stderr (cmd w) = Some q ->
  nth_error (mem w) q = Some Foreign ->
  exec_Start (Some (List.length (mem w))) (Some q) (proc (cmd w)) = (p1, None) ->
  exec_Wait p1 = (p2, out, err) ->
  exists w',
    Output fuel c w = Ok (w', (List.concat (chunks_of ToStdout out), err)) /\
    Stderr (cmd w') = Some q /\
    mem w' = mem w ++ [Buffer (List.concat (chunks_of ToStdout out))].
Proof.
  intros Hc Hd Ho He Hq HS HW.
  unfold Output. rewrite Ho. wsimpl. rewrite He. wsimpl.
  unfold Run, Start. wsimpl. unfold ptr in *. rewrite Hc, He, HS. wsimpl.
  unfold Wait. wsimpl. rewrite HW, ?He.
  rewrite (deliver_foreign fuel
             {| Stdout := Some (List.length (mem w)); Stderr := Some q;
                proc := p1 |}
             (mem w) q out eq_refl eq_refl Hq).
  cbn [bind]. wsimpl. rewrite Hd. cbn [bind]. wsimpl.
  unfold buffer_Bytes. rewrite nth_error_at_end.
  destruct err as [[msg | x | status old | msg] |]; cbn [bind];
    (eexists; split; [reflexivity | split; [cbn; exact He | reflexivity]]).
Qed.

End CmdFurther.

Lemma second_Wait_does_not_return_witness :
  Wait 2 (quiet_world None None)
    = Ok (@mkWorld quiet_process None None quiet_cmd true [] 0 [], None) /\
  waitDone (@mkWorld quiet_process None None quiet_cmd true [] 0 []) = true /\
  forall r,
    Wait 2 (@mkWorld quiet_process None None quiet_cmd true [] 0 []) <> Ok r.
Proof.
  split; [reflexivity |].
  apply (@second_Wait_does_not_return quiet_process 2 (quiet_world None None)
           (@mkWorld quiet_process None None quiet_cmd true [] 0 []) None).
  reflexivity.
Defined.

Lemma Start_spawns_watcher_iff_nil_witness :
  Start (quiet_world None None)
    = (@mkWorld quiet_process None None quiet_cmd false [] 1 [CmdStart], None) /\
  (@None error = None ->
   ctx (quiet_world None None) = None /\
   trace (@mkWorld quiet_process None None quiet_cmd false [] 1 [CmdStart])
   = trace (quiet_world None None) ++ [CmdStart] /\
   watchers (@mkWorld quiet_process None None quiet_cmd false [] 1 [CmdStart])
   = S (watchers (quiet_world None None))) /\
  (@None error <> None ->
   watchers (@mkWorld quiet_process None None quiet_cmd false [] 1 [CmdStart])
   = watchers (quiet_world None None)) /\
  waitDone (@mkWorld quiet_process None None quiet_cmd false [] 1 [CmdStart])
  = waitDone (quiet_world None None).
Proof.
  split; [reflexivity |].
  apply (@Start_spawns_watcher_iff_nil quiet_process (quiet_world None None)
           (@mkWorld quiet_process None None quiet_cmd false [] 1 [CmdStart])
           None).
  reflexivity.
Defined.


Lemma CombinedOutput_is_single_use_witness :
  exists (w' : @World chatty_process) (r : bytes * option error),
    CombinedOutput 2 chatty_world = Ok (w', r) /\
    exists err,
      already_set err /\ CombinedOutput 2 w' = Ok (w', ([], Some err)).
Proof.
  eexists. eexists. split; [vm_compute; reflexivity |].
  eapply (@CombinedOutput_is_single_use chatty_process 2 chatty_world).
  vm_compute. reflexivity.
Defined.

Lemma Output_is_single_use_witness :
  exists (w' : @World chatty_process) (r : bytes * option error),
    Output 2 None chatty_world = Ok (w', r) /\
    (forall c', Output 2 c' w'
                = Ok (w', ([], Some (errors_New "exec: Stdout already set")))) /\
    CombinedOutput 2 w'
    = Ok (w', ([], Some (errors_New "exec: Stdout already set"))).
Proof.
  eexists. eexists. split; [vm_compute; reflexivity |].
  eapply (@Output_is_single_use chatty_process 2 None chatty_world).
  vm_compute. reflexivity.
Defined.

Lemma watcher_applies_the_chosen_policy_witness :
  Start (quiet_world None (Some 7%nat))
    = (set_watchers (log (quiet_world None (Some 7%nat)) CmdStart) 1, None) /\
  exec 2 [EnvCancel Canceled; Select CaseCtxDone; CallWait]
    (set_watchers (log (quiet_world None (Some 7%nat)) CmdStart) 1)
    = Some (@mkWorld quiet_process (Some Canceled) (Some 7%nat) quiet_cmd true
              [] 0 [CmdStart; @Cancel quiet_process 7%nat]) /\
  (trace (@mkWorld quiet_process (Some Canceled) (Some 7%nat) quiet_cmd true
            [] 0 [CmdStart; @Cancel quiet_process 7%nat])
   = [CmdStart] \/
   trace (@mkWorld quiet_process (Some Canceled) (Some 7%nat) quiet_cmd true
            [] 0 [CmdStart; @Cancel quiet_process 7%nat])
   = [CmdStart; @policy_event quiet_process (Some 7%nat)]) /\
  (@Some (@Func quiet_process) 7%nat <> None ->
   ~ In Kill
       (trace (@mkWorld quiet_process (Some Canceled) (Some 7%nat) quiet_cmd
                 true [] 0 [CmdStart; @Cancel quiet_process 7%nat]))).
Proof.
  split; [reflexivity |]. split; [reflexivity |].
  apply (@watcher_applies_the_chosen_policy quiet_process 2
           None quiet_cmd (Some 7%nat) []
           [EnvCancel Canceled; Select CaseCtxDone; CallWait]
           (set_watchers (log (quiet_world None (Some 7%nat)) CmdStart) 1)
           (@mkWorld quiet_process (Some Canceled) (Some 7%nat) quiet_cmd true
              [] 0 [CmdStart; @Cancel quiet_process 7%nat]));
    reflexivity.
Defined.

Lemma CombinedOutput_collects_both_streams_witness :
  ctx chatty_world = None /\ waitDone chatty_world = false /\
  Stdout (cmd chatty_world) = None /\ Stderr (cmd chatty_world) = None /\
  @exec_Start chatty_process (Some (List.length (mem chatty_world)))
    (Some (List.length (mem chatty_world))) (proc (cmd chatty_world))
  = (tt, None) /\
  @exec_Wait chatty_process tt
  = (tt,
     [(ToStdout, list_byte_of_string "out");
      (ToStderr, list_byte_of_string "err");
      (ToStdout, list_byte_of_string "more")],
     Some (ExitError 1 [])) /\
  exists w',
    CombinedOutput 2 chatty_world
    = Ok (w',
          (List.concat
             (map snd
                [(ToStdout, list_byte_of_string "out");
                 (ToStderr, list_byte_of_string "err");
                 (ToStdout, list_byte_of_string "more")]),
           Some (ExitError 1 []))) /\
    waitDone w' = true.
Proof.
  do 6 (split; [reflexivity |]).
  apply (@CombinedOutput_collects_both_streams chatty_process 2 chatty_world
           tt tt
           [(ToStdout, list_byte_of_string "out");
            (ToStderr, list_byte_of_string "err");
            (ToStdout, list_byte_of_string "more")]
           (Some (ExitError 1 [])));
    reflexivity.
Defined.

Lemma Output_captures_stdout_and_saves_stderr_witness :
  (2 <= 2)%nat /\
  ctx chatty_world = None /\ waitDone chatty_world = false /\
  Stdout (cmd chatty_world) = None /\ Stderr (cmd chatty_world) = None /\
  @exec_Start chatty_process (Some (List.length (mem chatty_world)))
    (Some (S (List.length (mem chatty_world)))) (proc (cmd chatty_world))
  = (tt, None) /\
  @exec_Wait chatty_process tt
  = (tt,
     [(ToStdout, list_byte_of_string "out");
      (ToStderr, list_byte_of_string "err");
      (ToStdout, list_byte_of_string "more")],
     Some (ExitError 1 [])) /\
  exists w' b,
    Output 2 None chatty_world
    = Ok (w',
          (List.concat
             (chunks_of ToStdout
                [(ToStdout, list_byte_of_string "out");
                 (ToStderr, list_byte_of_string "err");
                 (ToStdout, list_byte_of_string "more")]),
           with_Stderr (Some (ExitError 1 [])) b)) /\
    (sv <- writes 2 (newSaver 32768)
             (chunks_of ToStderr
                [(ToStdout, list_byte_of_string "out");
                 (ToStderr, list_byte_of_string "err");
                 (ToStdout, list_byte_of_string "more")]) ;;
     Bytes sv)
    = Ok b /\
    (lenb (List.concat
             (chunks_of ToStderr
                [(ToStdout, list_byte_of_string "out");
                 (ToStderr, list_byte_of_string "err");
                 (ToStdout, list_byte_of_string "more")])) <= 65536 ->
     b = List.concat
           (chunks_of ToStderr
              [(ToStdout, list_byte_of_string "out");
               (ToStderr, list_byte_of_string "err");
               (ToStdout, list_byte_of_string "more")])).
Proof.
  split; [lia |]. do 6 (split; [reflexivity |]).
  apply (@Output_captures_stdout_and_saves_stderr chatty_process 2 None
           chatty_world tt tt
           [(ToStdout, list_byte_of_string "out");
            (ToStderr, list_byte_of_string "err");
            (ToStdout, list_byte_of_string "more")]
           (Some (ExitError 1 [])));
    [lia | reflexivity ..].
Defined.

Lemma Output_keeps_the_callers_Stderr_witness :
  ctx chatty_world_with_Stderr = None /\
  waitDone chatty_world_with_Stderr = false /\
  Stdout (cmd chatty_world_with_Stderr) = None /\
  Stderr (cmd chatty_world_with_Stderr) = Some 0%nat /\
  nth_error (mem chatty_world_with_Stderr) 0 = Some Foreign /\
  @exec_Start chatty_process
    (Some (List.length (mem chatty_world_with_Stderr))) (Some 0%nat)
    (proc (cmd chatty_world_with_Stderr))
  = (tt, None) /\
  @exec_Wait chatty_process tt
  = (tt,
     [(ToStdout, list_byte_of_string "out");
      (ToStderr, list_byte_of_string "err");
      (ToStdout, list_byte_of_string "more")],
     Some (ExitError 1 [])) /\
  exists w',
    Output 2 None chatty_world_with_Stderr
    = Ok (w',
          (List.concat
             (chunks_of ToStdout
                [(ToStdout, list_byte_of_string "out");
                 (ToStderr, list_byte_of_string "err");
                 (ToStdout, list_byte_of_string "more")]),
           Some (ExitError 1 []))) /\
    Stderr (cmd w') = Some 0%nat /\
    mem w'
    = mem chatty_world_with_Stderr
      ++ [Buffer
            (List.concat
               (chunks_of ToStdout
                  [(ToStdout, list_byte_of_string "out");
                   (ToStderr, list_byte_of_string "err");
                   (ToStdout, list_byte_of_string "more")]))].
Proof.
  do 7 (split; [reflexivity |]).
  apply (@Output_keeps_the_callers_Stderr chatty_process 2 None
           chatty_world_with_Stderr 0%nat tt tt
           [(ToStdout, list_byte_of_string "out");
            (ToStderr, list_byte_of_string "err");
            (ToStdout, list_byte_of_string "more")]
           (Some (ExitError 1 [])));
    reflexivity.
Defined.
